(** * Smart-parking ledger: a shallow embedding of [db_manager.py],
      the Flask application and the gate handler, with the properties
      of the occupancy / payment-handshake engine.

    Conventions of the embedding.

    - The table [parking_log] is the list of its rows in rowid order.  The
      column [id] (INTEGER PRIMARY KEY AUTOINCREMENT) of a row is its
      position in that list: the code never deletes a row, never reads an
      [id] back to its caller, and only uses it to order rows
      ([ORDER BY id DESC]) and to address one row ([WHERE id=?]).
    - An instant is a number of microseconds ([Z]); [datetime.now()] is an
      input of every operation.  A TEXT column holding a time is kept as
      what the two parsers of the code make of it (see [TimeText]).
    - [timedelta.total_seconds() / 60] is a binary64 computation: the
      elapsed microseconds are divided by [10**6] and the quotient by [60],
      each division rounded to the nearest binary64 number, before
      [math.ceil] takes the result to an integer.  The module [binary64]
      carries out these roundings on integers; its exponent is not bounded,
      the elapsed times between two [datetime] values staying far inside the
      range of the format.
    - Failures of sqlite and of the QR writer are inputs too: the oracle
      [fails] says which call site raises, [probe] how the store answers
      the successive probes of [wait_for_db_unlock].
    - Writes to the console ([print], [logger]) are taken to succeed and
      leave no trace in the model. *)

From stdpp Require Import base list strings gmap pretty.
From Stdlib Require Import ZArith.

(** ** Values shared by the three processes *)

Inductive Status : Type := IN | OUT.

#[global] Instance Status_eq_dec : EqDecision Status.
Proof. solve_decision. Defined.

(** A TEXT column that holds a time, as the code can tell its contents
    apart: SQL NULL; the empty string; a text in the format
    ["%Y-%m-%d %H:%M:%S"] (whole seconds); a text that [strptime] rejects
    with that format but [datetime.fromisoformat] reads as a naive instant;
    anything else. *)
Inductive TimeText : Type :=
  | Null
  | Blank
  | Stamp (secs : Z)
  | Iso (us : Z)
  | Garbled.

#[global] Instance TimeText_eq_dec : EqDecision TimeText.
Proof. solve_decision. Defined.

(** One row of [parking_log], without its [id]. *)
Record Row : Type := mkRow {
  plate : string;
  entry_time : TimeText;
  exit_time : TimeText;
  duration_min : option Z;
  amount : option Z;
  status : Status;
  slot : option string
}.

#[global] Instance Row_eq_dec : EqDecision Row.
Proof. solve_decision. Defined.

(** Result of a Python call: a value, or an exception that leaves the
    function. *)
Inductive exc (A : Type) : Type :=
  | Ret (a : A)
  | Raised.
Arguments Ret {A} a.
Arguments Raised {A}.

(** How the store answers one probe of [wait_for_db_unlock]:
    no error; [OperationalError] "database is locked"; any other
    [OperationalError]. *)
Inductive Probe : Type := Free | Locked | Broken.

(** The call sites that can raise inside an operation. *)
Inductive Site : Type :=
  | AtSelect     (* connect and the SELECTs that open an operation *)
  | AtOccupied   (* get_occupied_slots *)
  | AtWrite      (* INSERT / UPDATE and commit *)
  | AtQr         (* generate_upi_qr *)
  | AtQrSave     (* within generate_upi_qr: qr.save, once the file is open *)
  | AtLogs       (* fetch_all_logs *)
  | AtSlots.     (* fetch_current_slots *)

Record Env : Type := mkEnv {
  now : Z;
  probe : nat → Probe;
  fails : Site → bool
}.

(** Python truth value of a TEXT cell. *)
Definition truthy (s : option string) : bool :=
  match s with
  | Some s => negb (String.eqb s "")
  | None => false
  end.

Definition truthy_time (t : TimeText) : bool :=
  match t with
  | Null | Blank => false
  | Stamp _ | Iso _ | Garbled => true
  end.

(** [datetime.strftime("%Y-%m-%d %H:%M:%S")]: the microseconds are dropped. *)
Definition strftime (t : Z) : TimeText := Stamp (t `div` 1000000)%Z.

(** [datetime.strptime(s, "%Y-%m-%d %H:%M:%S")]; [None] stands for the
    exception ([ValueError], or [TypeError] on NULL). *)
Definition strptime (s : TimeText) : option Z :=
  match s with
  | Stamp secs => Some (secs * 1000000)%Z
  | _ => None
  end.

(** [datetime.fromisoformat(s)], reached only after [strptime] failed. *)
Definition fromisoformat (s : TimeText) : option Z :=
  match s with
  | Iso us => Some us
  | _ => None
  end.

(** The binary64 numbers [mant * 2 ^ expo] and the three operations the
    duration goes through: the true division of two integers, the division
    of a float by an integer that binary64 holds exactly, and [math.ceil].
    Both divisions round the exact quotient to the nearest number with a
    53-bit mantissa, ties to the even mantissa. *)
Module binary64.
#[local] Open Scope Z_scope.

Record t : Type := mk { mant : Z; expo : Z }.

(** [2 ^ e] as the fraction [up e / dn e] of two integers. *)
Definition up (e : Z) : Z := 2 ^ Z.max 0 e.
Definition dn (e : Z) : Z := 2 ^ Z.max 0 (- e).

(** The integer nearest to [n / d], ties to even, for [0 < d]. *)
Definition round_half_even (n d : Z) : Z :=
  let q := n `div` d in
  let r := n `mod` d in
  if 2 * r <? d then q
  else if d <? 2 * r then q + 1
  else if Z.even q then q else q + 1.

(** The exponent [e] with [2 ^ 52 <= (n / d) / 2 ^ e < 2 ^ 53], for
    [0 < n] and [0 < d]. *)
Definition exponent_of (n d : Z) : Z :=
  let e0 := Z.log2 n - Z.log2 d - 52 in
  if 2 ^ 52 * (d * up e0) <=? n * dn e0 then e0 else e0 - 1.

(** [n / d] of Python integers, and the quotient of any exact fraction. *)
Definition of_ratio (n d : Z) : t :=
  if n =? 0 then mk 0 0
  else
    let e := exponent_of (Z.abs n) d in
    mk (Z.sgn n * round_half_even (Z.abs n * dn e) (d * up e)) e.

(** [x / k] for a float [x] and a positive integer [k] below [2 ^ 53]. *)
Definition div_int (x : t) (k : Z) : t :=
  of_ratio (mant x * up (expo x)) (k * dn (expo x)).

(** [math.ceil(x)] *)
Definition ceil (x : t) : Z := - ((- (mant x * up (expo x))) `div` dn (expo x)).

(** [x <= y] on the values [mant * 2 ^ expo]. *)
Definition le (x y : t) : Prop :=
  mant x * up (expo x) * dn (expo y) ≤ mant y * up (expo y) * dn (expo x).

End binary64.

(** [timedelta.total_seconds()] of a difference of [us] microseconds. *)
Definition total_seconds (us : Z) : binary64.t := binary64.of_ratio us 1000000.

(** [math.ceil(duration_seconds / 60)] for an elapsed time of [us]
    microseconds. *)
Definition ceil_minutes (us : Z) : Z :=
  binary64.ceil (binary64.div_int (total_seconds us) 60).

(** The dictionary returned by [log_exit]. *)
Record ExitInfo : Type := mkExitInfo {
  q_plate : string;
  q_entry_time : TimeText;
  q_exit_time : TimeText;
  q_duration_min : Z;
  q_amount : Z;
  q_qr_path : string;
  q_slot : string
}.

(** Python values that the operations return to their callers. *)
Inductive pyval : Type :=
  | VStr (s : string)
  | VBool (b : bool)
  | VDict (d : ExitInfo).

(** ** db_manager.py *)

Module db_manager.

Definition RATE_PER_MIN : Z := 1.
Definition TOTAL_SLOTS : nat := 15.
Definition SLOT_LABELS : list string :=
  (λ i : nat, "A" +:+ pretty i) <$> seq 1 TOTAL_SLOTS.

(** What the operations of this module read and write: the table, the
    directory [IMAGES/] (file name to the UPI URL drawn in it, the empty
    text for a file that holds no picture) and the time spent in
    [time.sleep], in milliseconds. *)
Record Store : Type := mkStore {
  table : list Row;
  images : gmap string string;
  slept : Z
}.

Definition with_table (t : list Row) (st : Store) : Store :=
  mkStore t (images st) (slept st).

(** The loop of [wait_for_db_unlock]: [attempt] is the loop variable,
    [remaining] the number of iterations left. *)
Fixpoint wait_loop (env : Env) (wait_time : Z) (attempt remaining : nat)
    (st : Store) : exc bool * Store :=
  match remaining with
  | O => (Ret false, st)
  | S k =>
      match probe env attempt with
      | Free => (Ret true, st)
      | Locked =>
          wait_loop env wait_time (S attempt) k
            (mkStore (table st) (images st) (slept st + wait_time)%Z)
      | Broken => (Raised, st)
      end
  end.

Definition wait_for_db_unlock_with (max_retries : nat) (wait_time : Z)
    (env : Env) (st : Store) : exc bool * Store :=
  wait_loop env wait_time 0 max_retries st.

(** The call with its default arguments [max_retries=5, wait_time=0.5]. *)
Definition wait_for_db_unlock : Env → Store → exc bool * Store :=
  wait_for_db_unlock_with 5 500.

(** [WHERE plate=? AND status='IN'] *)
Definition parked (p : string) (r : Row) : Prop :=
  plate r = p ∧ status r = IN.

#[global] Instance parked_dec p r : Decision (parked p r).
Proof. unfold parked. apply _. Defined.

(** The rows with their ids, in rowid order. *)
Definition rowid_scan (t : list Row) : list (nat * Row) := imap pair t.

(** [SELECT ... WHERE plate=? AND status='IN' ORDER BY id DESC LIMIT 1]
    followed by [fetchone()]. *)
Definition select_latest_in (p : string) (t : list Row) : option (nat * Row) :=
  last (filter (λ ir, parked p ir.2) (rowid_scan t)).

(** [SELECT slot FROM parking_log WHERE status='IN'] and the set
    comprehension [{row[0] for row in ... if row[0]}]. *)
Definition occupied_of (t : list Row) : gset string :=
  list_to_set
    (omap (λ r, if truthy (slot r) then slot r else None)
          (filter (λ r, status r = IN) t)).

Definition get_occupied_slots (env : Env) (st : Store) : exc (gset string) :=
  if fails env AtOccupied then Raised else Ret (occupied_of (table st)).

(** The [for label in SLOT_LABELS] loop of [find_next_available_slot]. *)
Fixpoint first_free (occupied : gset string) (labels : list string)
    : option string :=
  match labels with
  | [] => None
  | label :: rest =>
      if decide (label ∉ occupied) then Some label
      else first_free occupied rest
  end.

Definition find_next_available_slot (env : Env) (st : Store)
    : exc (option string) :=
  match get_occupied_slots env st with
  | Raised => Raised
  | Ret occupied => Ret (first_free occupied SLOT_LABELS)
  end.

Definition log_entry (env : Env) (p : string) (st : Store)
    : exc string * Store :=
  match wait_for_db_unlock env st with
  | (Raised, st) => (Raised, st)
  | (Ret false, st) => (Ret "db_locked", st)
  | (Ret true, st) =>
      if fails env AtSelect then (Ret "db_error", st)
      else if decide (Exists (parked p) (table st)) then (Ret "already_in", st)
      else
        let now_text := strftime (now env) in
        match find_next_available_slot env st with
        | Raised => (Ret "db_error", st)
        | Ret None => (Ret "full", st)
        | Ret (Some label) =>
            if fails env AtWrite then (Ret "db_error", st)
            else
              (Ret "entry_logged",
               with_table
                 (table st ++ [mkRow p now_text Null None None IN (Some label)])
                 st)
        end
  end.

(** [generate_upi_qr] with its default [upi_id] and [payee_name]: the
    file is written, its name returned.  [open(filename, "wb")] creates the
    file or cuts it to nothing before [qr.save] writes: when the call
    raises, [AtQrSave] tells whether it was [qr.save] that raised, the file
    then being left without a picture (the empty text), or an earlier
    statement ([os.makedirs], [qrcode.make], [open]), no file being
    touched. *)
Definition generate_upi_qr (env : Env) (amount : Z) (p : string) (st : Store)
    : exc string * Store :=
  let upi_url :=
    "upi://pay?pa=dubeysagar744@oksbi&pn=ParkingLot&am=" +:+ pretty amount
      +:+ "&cu=INR&tn=" +:+ p in
  let filename := "IMAGES/upi_qr_" +:+ p +:+ ".png" in
  if fails env AtQr then
    if fails env AtQrSave then
      (Raised, mkStore (table st) (<[filename := ""]> (images st)) (slept st))
    else (Raised, st)
  else (Ret filename,
        mkStore (table st) (<[filename := upi_url]> (images st)) (slept st)).

Definition log_exit (env : Env) (p : string) (st : Store)
    : exc pyval * Store :=
  match wait_for_db_unlock env st with
  | (Raised, st) => (Raised, st)
  | (Ret false, st) => (Ret (VStr "db_locked"), st)
  | (Ret true, st) =>
      if fails env AtSelect then (Ret (VStr "db_error"), st)
      else
        match select_latest_in p (table st) with
        | None => (Ret (VStr "not_found"), st)
        | Some (entry_id, row) =>
            let entry_time_str := entry_time row in
            let parsed :=
              match strptime entry_time_str with
              | Some t => Some t
              | None => fromisoformat entry_time_str
              end in
            match parsed with
            | None => (Ret (VStr "db_error"), st)
            | Some entry_instant =>
                let exit_instant := now env in
                let duration_us := (exit_instant - entry_instant)%Z in
                let duration := Z.max 1 (ceil_minutes duration_us) in
                let amount := (duration * RATE_PER_MIN)%Z in
                match generate_upi_qr env amount p st with
                | (Raised, st) => (Ret (VStr "qr_error"), st)
                | (Ret qr_path, st) =>
                    (Ret (VDict
                       (mkExitInfo p entry_time_str (strftime exit_instant)
                          duration amount qr_path
                          (if truthy (slot row) then default "" (slot row)
                           else "Unknown"))),
                     st)
                end
            end
        end
  end.

(** [SELECT ... FROM parking_log ORDER BY id DESC]: the rows, newest
    first. *)
Definition fetch_all_logs (env : Env) (st : Store) : exc (list Row) :=
  if fails env AtLogs then Raised else Ret (reverse (table st)).

(** The two UPDATE statements of [confirm_payment_and_exit]. *)
Definition close_with (exit_text : TimeText) (duration amount : Z) (r : Row)
    : Row :=
  mkRow (plate r) (entry_time r) exit_text (Some duration) (Some amount) OUT
    (slot r).

Definition force_out (r : Row) : Row :=
  mkRow (plate r) (entry_time r) (exit_time r) (duration_min r) (amount r) OUT
    (slot r).

Definition confirm_payment_and_exit (env : Env) (p : string) (st : Store)
    : exc bool * Store :=
  match wait_for_db_unlock env st with
  | (Raised, st) => (Raised, st)
  | (Ret false, st) => (Ret false, st)
  | (Ret true, st) =>
      if fails env AtSelect then (Ret false, st)
      else
        match select_latest_in p (table st) with
        | None => (Ret false, st)
        | Some (entry_id, row) =>
            if negb (truthy_time (exit_time row)) then
              match strptime (entry_time row) with
              | None => (Ret false, st)
              | Some entry_instant =>
                  let exit_instant := now env in
                  let duration_us := (exit_instant - entry_instant)%Z in
                  let duration := Z.max 1 (ceil_minutes duration_us) in
                  let amount := (duration * RATE_PER_MIN)%Z in
                  if fails env AtWrite then (Ret false, st)
                  else
                    (Ret true,
                     with_table
                       (alter (close_with (strftime exit_instant) duration amount)
                          entry_id (table st))
                       st)
              end
            else if fails env AtWrite then (Ret false, st)
            else (Ret true, with_table (alter force_out entry_id (table st)) st)
        end
  end.

(** [fetch_current_slots]: every label starts at [None]; each IN row whose
    slot is a key of the dictionary overwrites that key, in scan order. *)
Definition slots_step (slots : gmap string (option string)) (r : Row)
    : gmap string (option string) :=
  match slot r with
  | Some s => if decide (s ∈ dom slots) then <[s := Some (plate r)]> slots
              else slots
  | None => slots
  end.

Definition empty_slots : gmap string (option string) :=
  list_to_map ((λ label, (label, None)) <$> SLOT_LABELS).

Definition current_slots_of (t : list Row) : gmap string (option string) :=
  foldl slots_step empty_slots (filter (λ r, status r = IN) t).

Definition fetch_current_slots (env : Env) (st : Store)
    : exc (gmap string (option string)) :=
  if fails env AtSlots then Raised else Ret (current_slots_of (table st)).

End db_manager.

(** ** app-LAPTOP-0RFHURIK.py

    The routes that write the store, the pending-exit variable or the
    Socket.IO channel.  The routes that only read ([/], [/check_status],
    [/api/stats], [/api/logs], [/images], [/qr]) emit nothing and are left
    out. *)

Module app.
Import db_manager.

(** The events passed to [socketio.emit], with their payloads. *)
Inductive Event : Type :=
  | Ev_open_exit_gate (p : string)
  | Ev_payment_confirmed (p : string)
  | Ev_logs_update (logs : list Row)
  | Ev_slots_update (slots : gmap string (option string))
  | Ev_pending_exit (p : string)
  | Ev_plate_detected (p status : string)
      (amount duration entry_time exit_time : option string).

(** The process state: the store, the global [pending_exit_plate] (read
    and written under [pending_exit_lock]) and the events broadcast so
    far, oldest first. *)
Record App : Type := mkApp {
  store : Store;
  pending_exit_plate : option string;
  emitted : list Event
}.

Definition emit (e : Event) (a : App) : App :=
  mkApp (store a) (pending_exit_plate a) (emitted a ++ [e]).

Definition with_store (st : Store) (a : App) : App :=
  mkApp st (pending_exit_plate a) (emitted a).

(** Bodies of the HTTP responses: plain text; the JSON objects
    [{'success', 'error'}], [{'success', 'pending_exit'}],
    [{'pending_exit'}] and the exit quote; the rendered [exit.html]; the
    text ["Error: ..."] and the object [{'error': ...}] around the value
    [log_exit] returned; ["Internal error: ..."] around the text of a
    caught exception; Flask's own answer to an exception that leaves the
    view. *)
Inductive Body : Type :=
  | Text (s : string)
  | Success (ok : bool) (error : option string)
  | PendingSet (p : string)
  | PendingIs (p : option string)
  | ExitJson (d : ExitInfo)
  | ExitHtml (d : ExitInfo)
  | ErrorText (v : pyval)
  | ErrorJson (v : pyval)
  | InternalError
  | Unhandled.

Record Response : Type := mkResponse { code : nat; body : Body }.

Definition broadcast_logs_update (env : Env) (a : App) : exc unit * App :=
  match fetch_all_logs env (store a) with
  | Raised => (Raised, a)
  | Ret logs => (Ret tt, emit (Ev_logs_update logs) a)
  end.

Definition broadcast_slots_update (env : Env) (a : App) : App :=
  match fetch_current_slots env (store a) with
  | Raised => a
  | Ret slots => emit (Ev_slots_update slots) a
  end.

(** [/sms_webhook].  [search] is what [re.search] finds in the form field
    [message]: the two groups (amount, plate) of the pattern, or nothing.
    [abort(403)] raises inside the [try], so the handler's own
    [except Exception] turns it into the 500 answer. *)
Definition sms_webhook (TRACCAR_TOKEN : string) (env : Env)
    (token : option string) (search : option (string * string)) (a : App)
    : Response * App :=
  if negb (bool_decide (token = Some TRACCAR_TOKEN)) then
    (mkResponse 500 (Text "Internal error"), a)
  else
    match search with
    | Some (amount, p) =>
        match confirm_payment_and_exit env p (store a) with
        | (Raised, st) => (mkResponse 500 (Text "Internal error"), with_store st a)
        | (Ret true, st) =>
            (mkResponse 200 (Text "Payment confirmed, exit allowed"),
             with_store st a)
        | (Ret false, st) =>
            (mkResponse 200 (Text "Payment received but not matched: False"),
             with_store st a)
        end
    | None => (mkResponse 200 (Text "No match"), a)
    end.

(** [/exit/<plate>] *)
Definition exit_page (env : Env) (p : string) (a : App) : Response * App :=
  match log_exit env p (store a) with
  | (Raised, st) => (mkResponse 500 InternalError, with_store st a)
  | (Ret (VDict info), st) => (mkResponse 200 (ExitHtml info), with_store st a)
  | (Ret exit_info, st) =>
      (mkResponse 400 (ErrorText exit_info), with_store st a)
  end.

(** [/api/exit_info/<plate>] *)
Definition api_exit_info (env : Env) (p : string) (a : App) : Response * App :=
  match log_exit env p (store a) with
  | (Raised, st) => (mkResponse 500 Unhandled, with_store st a)
  | (Ret (VDict info), st) => (mkResponse 200 (ExitJson info), with_store st a)
  | (Ret exit_info, st) =>
      (mkResponse 400 (ErrorJson exit_info), with_store st a)
  end.

(** [/api/confirm_exit]; [plate] is [data.get('plate')]. *)
Definition api_confirm_exit (env : Env) (plate : option string) (a : App)
    : Response * App :=
  if negb (truthy plate) then
    (mkResponse 400 (Success false (Some "No plate provided")), a)
  else
    let p := default "" plate in
    match confirm_payment_and_exit env p (store a) with
    | (Raised, st) => (mkResponse 500 Unhandled, with_store st a)
    | (Ret true, st) =>
        let a := with_store st a in
        let a :=
          if bool_decide (pending_exit_plate a = Some p)
          then mkApp (store a) None (emitted a)
          else a in
        let a := emit (Ev_open_exit_gate p) a in
        let a := emit (Ev_payment_confirmed p) a in
        match broadcast_logs_update env a with
        | (Raised, a) => (mkResponse 500 Unhandled, a)
        | (Ret _, a) =>
            let a := broadcast_slots_update env a in
            (mkResponse 200 (Success true None), a)
        end
    | (Ret false, st) =>
        (mkResponse 500 (Success false (Some "Could not confirm exit")),
         with_store st a)
    end.

(** The JSON body of [/api/plate_detected]; the four optional values are
    kept as the text the client sent. *)
Record Detection : Type := mkDetection {
  d_plate : option string;
  d_status : option string;
  d_amount : option string;
  d_duration : option string;
  d_entry_time : option string;
  d_exit_time : option string
}.

Definition plate_detected (env : Env) (data : Detection) (a : App)
    : Response * App :=
  if negb (truthy (d_plate data)) || negb (truthy (d_status data)) then
    (mkResponse 400 (Success false (Some "Missing required fields")), a)
  else
    let p := default "" (d_plate data) in
    let status := default "" (d_status data) in
    let a :=
      emit (Ev_plate_detected p status (d_amount data) (d_duration data)
              (d_entry_time data) (d_exit_time data)) a in
    if String.eqb status "entry_logged" then
      match broadcast_logs_update env a with
      | (Raised, a) => (mkResponse 500 Unhandled, a)
      | (Ret _, a) =>
          (mkResponse 200 (Success true None), broadcast_slots_update env a)
      end
    else (mkResponse 200 (Success true None), a).

(** [/api/set_pending_exit/<plate>] *)
Definition set_pending_exit (p : string) (a : App) : Response * App :=
  let a := mkApp (store a) (Some p) (emitted a) in
  let a := emit (Ev_pending_exit p) a in
  (mkResponse 200 (PendingSet p), a).

(** [/api/get_pending_exit] *)
Definition get_pending_exit (a : App) : Response * App :=
  (mkResponse 200 (PendingIs (pending_exit_plate a)), a).

(** The [connect] handler: the events go to the new client only. *)
Definition handle_connect (env : Env) (a : App) : list Event :=
  match fetch_all_logs env (store a) with
  | Raised => []
  | Ret logs =>
      match fetch_current_slots env (store a) with
      | Raised => [Ev_logs_update logs]
      | Ret slots => [Ev_logs_update logs; Ev_slots_update slots]
      end
  end.

(** A request to the application. *)
Inductive Request : Type :=
  | SmsWebhook (token : option string) (search : option (string * string))
  | ExitPage (p : string)
  | ApiExitInfo (p : string)
  | ApiConfirmExit (plate : option string)
  | PlateDetected (data : Detection)
  | SetPendingExit (p : string)
  | GetPendingExit.

Definition handle (TRACCAR_TOKEN : string) (env : Env) (rq : Request) (a : App)
    : Response * App :=
  match rq with
  | SmsWebhook token search => sms_webhook TRACCAR_TOKEN env token search a
  | ExitPage p => exit_page env p a
  | ApiExitInfo p => api_exit_info env p a
  | ApiConfirmExit plate => api_confirm_exit env plate a
  | PlateDetected data => plate_detected env data a
  | SetPendingExit p => set_pending_exit p a
  | GetPendingExit => get_pending_exit a
  end.

(** Number of [open_exit_gate] events for plate [p] in a list of events. *)
Definition is_gate_open (p : string) (e : Event) : bool :=
  match e with
  | Ev_open_exit_gate q => String.eqb q p
  | _ => false
  end.

Definition gate_opens (p : string) (evs : list Event) : nat :=
  length (List.filter (is_gate_open p) evs).

(** [/check_status/<plate>]:
    [SELECT status ... WHERE plate=? ORDER BY id DESC LIMIT 1].  The answer
    is given as the HTTP code and the value of its ['status'] field (the
    ['plate'] field repeats the argument); an exception is answered with
    500 and ['error']. *)
Definition status_text (s : Status) : string :=
  match s with
  | IN => "IN"
  | OUT => "OUT"
  end.

Definition check_status (env : Env) (p : string) (a : App) : nat * string :=
  if fails env AtSelect then (500, "error")
  else
    match last (filter (λ r, plate r = p) (table (store a))) with
    | Some row => (200, status_text (status row))
    | None => (200, "not_found")
    end.

End app.

(** ** arduino_handler.py: the command path to the gate hardware *)

Module arduino_handler.

(** [serial_conn] records whether the attribute is set; [written] is what
    went out on the serial line, oldest first. *)
Record ArduinoHandler : Type := mkArduino {
  connected : bool;
  serial_conn : bool;
  written : list string
}.

(** [serial_ok] tells whether [write] and [flush] return; an exception
    there is caught and answered with [False]. *)
Definition send_command (serial_ok : bool) (command : string)
    (h : ArduinoHandler) : bool * ArduinoHandler :=
  if negb (connected h) || negb (serial_conn h) then (false, h)
  else if serial_ok then
    (true, mkArduino (connected h) (serial_conn h) (written h ++ [command]))
  else (false, h).

Definition open_exit_gate (serial_ok : bool) := send_command serial_ok "OPEN_EXIT".
Definition close_exit_gate (serial_ok : bool) := send_command serial_ok "CLOSE_EXIT".

Definition is_connected (h : ArduinoHandler) : bool :=
  connected h && serial_conn h.

Definition open_entry_gate (serial_ok : bool) := send_command serial_ok "OPEN_ENTRY".
Definition close_entry_gate (serial_ok : bool) := send_command serial_ok "CLOSE_ENTRY".

End arduino_handler.

(** ** nesm-LAPTOP-0RFHURIK.py: the subscriber of [open_exit_gate] *)

Module nesm.
Import arduino_handler.

(** The global [arduino] ([None] when the board could not be opened) and
    the time spent holding the gate open, in milliseconds. *)
Record Nesm : Type := mkNesm {
  arduino : option ArduinoHandler;
  dwell : Z
}.

(** [_on_open_exit_gate]; [serial_ok k] is the fate of the [k]-th write. *)
Definition _on_open_exit_gate (serial_ok : nat → bool) (n : Nesm) : Nesm :=
  match arduino n with
  | Some h =>
      if is_connected h then
        let h := (open_exit_gate (serial_ok 0) h).2 in
        let h := (close_exit_gate (serial_ok 1) h).2 in
        mkNesm (Some h) (dwell n + 3000)%Z
      else n
  | None => n
  end.

(** *** The camera loop *)

Import db_manager app.

(** The texts shown on the video frame, without their pictograms:
    the initial one; the two set by the sensor callback; those of the exit
    branch; those of the entry branch; the one of the [except] clause. *)
Inductive Message : Type :=
  | Waiting
  | EntryScanning
  | ExitScanning
  | AlreadyParked (p : string)
  | AmountDue (amount duration : Z)
  | DbLocked
  | EntryNotFound (p : string)
  | DbErrorFor (p : string)
  | QrError (p : string)
  | ExitError (p : string)
  | AlreadyParkedUnexpected (p : string)
  | ParkingFull (p : string)
  | EntryLogged (p : string)
  | DatabaseError (p : string).

(** The globals of the main loop, with the hardware state. *)
Record Loop : Type := mkLoop {
  hw : Nesm;
  detection_mode : option string;
  status_message : Message;
  last_detected_plate : option string;
  last_detection_time : Z
}.

(** [cooldown = 5] seconds, in microseconds. *)
Definition cooldown : Z := 5000000.

Definition set_message (m : Message) (l : Loop) : Loop :=
  mkLoop (hw l) (detection_mode l) m (last_detected_plate l)
    (last_detection_time l).

Definition set_mode (mode : option string) (l : Loop) : Loop :=
  mkLoop (hw l) mode (status_message l) (last_detected_plate l)
    (last_detection_time l).

(** [handle_arduino_event]: the two GATE_ branches only log. *)
Definition handle_arduino_event (event : string) (l : Loop) : Loop :=
  if String.eqb event "ENTRY_DETECTED" then
    set_message EntryScanning (set_mode (Some "entry") l)
  else if String.eqb event "EXIT_DETECTED" then
    set_message ExitScanning (set_mode (Some "exit") l)
  else l.

(** What one pass of the loop takes from outside: the text of a time
    column as it goes into a JSON body; the store as seen by the loop's
    own SELECT, by the [db_manager] call and by the views of the web
    process; whether the [k]-th HTTP request reaches the server; the fate
    of the [k]-th serial write; the clock read for the entry
    notification. *)
Record Oracle : Type := mkOracle {
  o_text : TimeText → string;
  o_sel : Env;
  o_op : Env;
  o_app : Env;
  o_reach : nat → bool;
  o_serial : nat → bool;
  o_now_sent : Z
}.

(** [send_api_request]: the view runs in the web process when the request
    arrives; the answer is [True] on HTTP 200, [False] otherwise and on any
    exception. *)
Definition send_api_request (reachable : bool) (view : App → Response * App)
    (a : App) : bool * App :=
  if reachable then
    let r := view a in (Nat.eqb (code r.1) 200, r.2)
  else (false, a).

(** The gate block of the entry branch. *)
Definition pass_entry_gate (serial_ok : nat → bool) (n : Nesm) : Nesm :=
  match arduino n with
  | Some h =>
      if is_connected h then
        let h := (open_entry_gate (serial_ok 0) h).2 in
        let h := (close_entry_gate (serial_ok 1) h).2 in
        mkNesm (Some h) (dwell n + 3000)%Z
      else n
  | None => n
  end.

(** The [try] block run for a detected plate.  In the exit branch the name
    [detection_mode_was_exit] is read without ever being bound: the
    [NameError] lands in the [except] clause, after the two requests. *)
Definition process_plate (o : Oracle) (plate_text : string) (a : App) (l : Loop)
    : App * Loop :=
  if fails (o_sel o) AtSelect then (a, set_message (DatabaseError plate_text) l)
  else if decide (Exists (parked plate_text) (table (store a))) then
    let l := set_message (AlreadyParked plate_text) l in
    match log_exit (o_op o) plate_text (store a) with
    | (Raised, st) =>
        (with_store st a, set_message (DatabaseError plate_text) l)
    | (Ret (VDict info), st) =>
        let a := with_store st a in
        let l := set_message (AmountDue (q_amount info) (q_duration_min info)) l in
        let a :=
          (send_api_request (o_reach o 0) (set_pending_exit plate_text) a).2 in
        let a :=
          (send_api_request (o_reach o 1)
             (plate_detected (o_app o)
                (mkDetection (Some plate_text) (Some "exit_pending")
                   (Some (pretty (q_amount info)))
                   (Some (pretty (q_duration_min info)))
                   (Some (o_text o (q_entry_time info)))
                   (Some (o_text o (q_exit_time info))))) a).2 in
        (a, set_message (DatabaseError plate_text) l)
    | (Ret (VStr result), st) =>
        (with_store st a,
         set_message
           (if String.eqb result "db_locked" then DbLocked
            else if String.eqb result "not_found" then EntryNotFound plate_text
            else if String.eqb result "db_error" then DbErrorFor plate_text
            else if String.eqb result "qr_error" then QrError plate_text
            else ExitError plate_text) l)
    | (Ret (VBool _), st) =>
        (with_store st a, set_message (ExitError plate_text) l)
    end
  else
    match log_entry (o_op o) plate_text (store a) with
    | (Raised, st) =>
        (with_store st a, set_message (DatabaseError plate_text) l)
    | (Ret result, st) =>
        let a := with_store st a in
        if String.eqb result "already_in" then
          (a, set_message (AlreadyParkedUnexpected plate_text) l)
        else if String.eqb result "db_locked" then (a, set_message DbLocked l)
        else if String.eqb result "full" then
          (a, set_message (ParkingFull plate_text) l)
        else
          let l := set_message (EntryLogged plate_text) l in
          let l :=
            mkLoop (pass_entry_gate (o_serial o) (hw l)) (detection_mode l)
              (status_message l) (last_detected_plate l)
              (last_detection_time l) in
          let a :=
            (send_api_request (o_reach o 0)
               (plate_detected (o_app o)
                  (mkDetection (Some plate_text) (Some "entry_logged") None None
                     (Some (o_text o (strftime (o_now_sent o)))) None)) a).2 in
          (a, l)
    end.

(** One pass of the [while True] loop, display left out: [key_c] says
    whether the key read is 'c', [now_time] is [time.time()],
    [detected] what the OCR makes of the frame. *)
Definition loop_iteration (o : Oracle) (key_c : bool) (now_time : Z)
    (detected : option string) (a : App) (l : Loop) : App * Loop :=
  let l :=
    if key_c && (if arduino (hw l) is None then true else false)
    then set_mode (Some "entry") l else l in
  if truthy (detection_mode l) then
    if truthy detected &&
       (negb (bool_decide (detected = last_detected_plate l))
        || (cooldown <? now_time - last_detection_time l)%Z)
    then
      let plate_text := default "" detected in
      let l :=
        mkLoop (hw l) (detection_mode l) (status_message l) detected now_time in
      let r :=
        if bool_decide (default "" (detection_mode l) ∈ ["entry"; "exit"; "detect"])
        then process_plate o plate_text a l
        else (a, l) in
      (r.1, set_mode None r.2)
    else (a, l)
  else (a, l).

End nesm.

(** ** Notions used in the statements *)

Import db_manager.

(** An environment in which the store answers at once and nothing raises,
    at instant [t]. *)
Definition calm (t : Z) : Env := mkEnv t (λ _, Free) (λ _, false).

(** The store is locked by another connection.  The probe of
    [wait_for_db_unlock], [connect] and [SELECT 1], reads no page of the
    database file and is not held up by the lock; the first statement of
    an operation that reads the table raises [OperationalError]
    "database is locked" once the busy timeout of sqlite has run out. *)
Definition locked_by_another (env : Env) : Prop :=
  (∀ k, probe env k = Free) ∧ fails env AtSelect = true.

(** Such an environment, at instant [t]: every probe passes, every
    statement on the table raises. *)
Definition held_lock (t : Z) : Env :=
  mkEnv t (λ _, Free)
    (λ s, match s with AtQr | AtQrSave => false | _ => true end).

Definition fresh : Store := mkStore [] ∅ 0.

(** A row as [log_entry] writes it. *)
Definition parked_row (p : string) (secs : Z) (label : string) : Row :=
  mkRow p (Stamp secs) Null None None IN (Some label).

(** The two ledger invariants of the data model: at most one IN row per
    plate, at most one IN row per slot. *)
Definition one_in_per_plate (t : list Row) : Prop :=
  ∀ i j ri rj, t !! i = Some ri → t !! j = Some rj →
    status ri = IN → status rj = IN → plate ri = plate rj → i = j.

Definition one_in_per_slot (t : list Row) : Prop :=
  ∀ i j ri rj l, t !! i = Some ri → t !! j = Some rj →
    status ri = IN → status rj = IN →
    slot ri = Some l → slot rj = Some l → i = j.

Definition ledger_inv (t : list Row) : Prop :=
  one_in_per_plate t ∧ one_in_per_slot t.

(** One call of one of the three ledger operations, in any environment. *)
Inductive ledger_step : Store → Store → Prop :=
  | step_log_entry env p st :
      ledger_step st (log_entry env p st).2
  | step_log_exit env p st :
      ledger_step st (log_exit env p st).2
  | step_confirm env p st :
      ledger_step st (confirm_payment_and_exit env p st).2.

(** The ways an operation can change the table: not at all; by one new
    row for a plate that is not parked, on a free, non-empty label, with a
    well-formed entry time; by turning one IN row to OUT with plate, slot
    and entry time kept. *)
Inductive table_change (t : list Row) : list Row → Prop :=
  | change_none : table_change t t
  | change_insert p secs label :
      ¬ Exists (parked p) t → label ∉ occupied_of t → label ≠ "" →
      table_change t (t ++ [mkRow p (Stamp secs) Null None None IN (Some label)])
  | change_close i r f :
      t !! i = Some r → status r = IN →
      plate (f r) = plate r → slot (f r) = slot r → status (f r) = OUT →
      entry_time (f r) = entry_time r →
      table_change t (alter f i t).

(** An entry time as [log_entry] writes it. *)
Definition stamped (r : Row) : Prop := ∃ secs, entry_time r = Stamp secs.

(** The duration as the specification words it:
    [ceil(max(1, elapsed seconds) / 60)], the elapsed time being given in
    microseconds and the quotient being the exact one. *)
Definition spec_duration_minutes (elapsed_us : Z) : Z :=
  (- ((- Z.max 1000000 elapsed_us) `div` 60000000))%Z.

(** The entry instant [log_exit] works with: [strptime], and
    [fromisoformat] when that fails. *)
Definition entry_instant (s : TimeText) : option Z :=
  match strptime s with
  | Some t => Some t
  | None => fromisoformat s
  end.



(** [log_exit] called for the same plate once per environment of the list. *)
Definition quote_calls (p : string) (envs : list Env) (st : Store) : Store :=
  foldl (λ s env, (log_exit env p s).2) st envs.

(** [WHERE plate=? AND status='OUT'] *)
Definition closed (p : string) (r : Row) : Prop :=
  plate r = p ∧ status r = OUT.

#[global] Instance closed_dec p r : Decision (closed p r).
Proof. unfold closed. apply _. Defined.

(** [log_entry] for each plate of a list in turn, in a calm environment. *)
Definition enter_all (plates : list string) (st : Store) : Store :=
  foldl (λ s p, (log_entry (calm 1000000000) p s).2) st plates.

(** Fifteen distinct plates. *)
Definition fifteen_plates : list string :=
  (λ i : nat, "KA01AB10" +:+ pretty i) <$> seq 10 15.

(** The store after [k] sleeps of the probe loop. *)
Definition after_sleeps (k : nat) (st : Store) : Store :=
  mkStore (table st) (images st) (slept st + 500 * Z.of_nat k)%Z.

(** The file [generate_upi_qr] writes for a plate, and what it draws. *)
Definition qr_file (p : string) : string := "IMAGES/upi_qr_" +:+ p +:+ ".png".

Definition upi_url (amount : Z) (p : string) : string :=
  "upi://pay?pa=dubeysagar744@oksbi&pn=ParkingLot&am=" +:+ pretty amount
    +:+ "&cu=INR&tn=" +:+ p.

(** An IN row is the newest row of its plate. *)
Definition in_rows_newest (t : list Row) : Prop :=
  ∀ i j ri rj, t !! i = Some ri → t !! j = Some rj →
    status ri = IN → plate rj = plate ri → j ≤ i.

(** * Properties *)

(** ** The slot allocator *)

Section allocator.

Lemma SLOT_LABELS_eq :
  SLOT_LABELS =
  ["A1"; "A2"; "A3"; "A4"; "A5"; "A6"; "A7"; "A8"; "A9"; "A10"; "A11"; "A12";
   "A13"; "A14"; "A15"].
Proof. vm_compute. reflexivity. Qed.

Lemma SLOT_LABELS_length : length SLOT_LABELS = 15.
Proof. rewrite SLOT_LABELS_eq. reflexivity. Qed.

Lemma SLOT_LABELS_nonempty (l : string) : l ∈ SLOT_LABELS → l ≠ "".
Proof.
  rewrite SLOT_LABELS_eq. intros Hl ->.
  repeat (apply elem_of_cons in Hl as [Hl | Hl]; [discriminate Hl |]).
  by apply elem_of_nil in Hl.
Qed.

Lemma truthy_Some (s : string) : truthy (Some s) = true ↔ s ≠ "".
Proof.
  unfold truthy. destruct (String.eqb_spec s ""); simpl; split; try done.
Qed.

(** A label is occupied exactly when some IN row carries it as a
    non-empty slot. *)
Lemma elem_of_occupied_of (l : string) (t : list Row) :
  l ∈ occupied_of t ↔
  ∃ r, r ∈ t ∧ status r = IN ∧ slot r = Some l ∧ l ≠ "".
Proof.
  unfold occupied_of. rewrite elem_of_list_to_set, list_elem_of_omap.
  split.
  - intros (r & Hr & Hs). apply list_elem_of_filter in Hr as [Hin Hr].
    exists r. destruct (truthy (slot r)) eqn:Ht; [| done].
    rewrite Hs in Ht. apply truthy_Some in Ht. done.
  - intros (r & Hr & Hin & Hs & Hne). exists r. split.
    + apply list_elem_of_filter. done.
    + rewrite Hs. apply truthy_Some in Hne. by rewrite Hne.
Qed.

Lemma first_free_Some (occ : gset string) (labels : list string) (l : string) :
  first_free occ labels = Some l ↔
  ∃ k, labels !! k = Some l ∧ (l ∉ occ) ∧
       (∀ j l', j < k → labels !! j = Some l' → l' ∈ occ).
Proof.
  induction labels as [| a rest IH]; simpl.
  - split; [done |]. intros (k & Hk & _). by rewrite lookup_nil in Hk.
  - destruct (decide (a ∉ occ)) as [Ha | Ha].
    + split.
      * intros [= <-]. exists 0. split; [done |]. split; [done |]. lia.
      * intros (k & Hk & Hl & Hlt). destruct k as [| k]; [simpl in Hk; done |].
        exfalso. apply Ha. apply (Hlt 0 a); [lia | done].
    + apply dec_stable in Ha. rewrite IH. split.
      * intros (k & Hk & Hl & Hlt). exists (S k). split; [done |].
        split; [done |]. intros [| j] l' Hj Hl'.
        -- simpl in Hl'. by injection Hl' as <-.
        -- apply (Hlt j); [lia | done].
      * intros (k & Hk & Hl & Hlt). destruct k as [| k].
        -- simpl in Hk. injection Hk as ->. done.
        -- exists k. split; [done |]. split; [done |].
           intros j l' Hj Hl'. apply (Hlt (S j)); [lia | done].
Qed.

Lemma first_free_None (occ : gset string) (labels : list string) :
  first_free occ labels = None ↔ ∀ l, l ∈ labels → l ∈ occ.
Proof.
  induction labels as [| a rest IH]; simpl.
  - split; [| done]. intros _ l Hl. by apply elem_of_nil in Hl.
  - destruct (decide (a ∉ occ)) as [Ha | Ha].
    + split; [done |]. intros H. exfalso. apply Ha, H. left.
    + apply dec_stable in Ha. rewrite IH. split.
      * intros H l Hl. apply elem_of_cons in Hl as [-> | Hl]; auto.
      * intros H l Hl. apply H. by right.
Qed.

End allocator.

(** ** The probe loop and the SELECT of the open stay *)

Section store_access.

(** The loop only sleeps: table and images are the ones it started with. *)
Lemma wait_loop_frame env w a n st :
  table (wait_loop env w a n st).2 = table st ∧
  images (wait_loop env w a n st).2 = images st.
Proof.
  revert a st. induction n as [| n IH]; intros a st; simpl; [done |].
  destruct (probe env a); simpl; [done | | done].
  destruct (IH (S a) (mkStore (table st) (images st) (slept st + w)%Z)) as [-> ->].
  done.
Qed.

Lemma wait_for_db_unlock_table env st :
  table (wait_for_db_unlock env st).2 = table st.
Proof. apply wait_loop_frame. Qed.

Lemma wait_for_db_unlock_images env st :
  images (wait_for_db_unlock env st).2 = images st.
Proof. apply wait_loop_frame. Qed.

(** When every probe the loop makes finds the store locked, it gives up
    after [n] sleeps. *)
Lemma wait_loop_all_locked env w a n st :
  (∀ k, a ≤ k < a + n → probe env k = Locked) →
  wait_loop env w a n st =
  (Ret false, mkStore (table st) (images st) (slept st + Z.of_nat n * w)%Z).
Proof.
  revert a st. induction n as [| n IH]; intros a st Hl.
  - simpl. destruct st; simpl. do 2 f_equal. lia.
  - simpl. rewrite (Hl a) by lia. rewrite IH by (intros k Hk; apply Hl; lia).
    simpl. do 2 f_equal. lia.
Qed.

(** The outcome depends on the probes [a .. a+n-1] only. *)
Lemma wait_loop_ext env env' w a n st :
  (∀ k, a ≤ k < a + n → probe env k = probe env' k) →
  wait_loop env w a n st = wait_loop env' w a n st.
Proof.
  revert a st. induction n as [| n IH]; intros a st Hp; simpl; [done |].
  rewrite <- (Hp a) by lia. destruct (probe env a); try done.
  apply IH. intros k Hk. apply Hp. lia.
Qed.

(** The loop never sleeps more than [n] times. *)
Lemma wait_loop_slept env w a n st :
  (0 ≤ w)%Z →
  (slept st ≤ slept (wait_loop env w a n st).2 ≤ slept st + Z.of_nat n * w)%Z.
Proof.
  intros Hw. revert a st. induction n as [| n IH]; intros a st; simpl; [lia |].
  destruct (probe env a); simpl; [nia | | nia].
  specialize (IH (S a) (mkStore (table st) (images st) (slept st + w)%Z)).
  simpl in IH. nia.
Qed.

Lemma wait_free env st :
  probe env 0 = Free → wait_for_db_unlock env st = (Ret true, st).
Proof.
  intros H. unfold wait_for_db_unlock, wait_for_db_unlock_with. simpl.
  by rewrite H.
Qed.

(** [select_latest_in] in terms of positions: the row found is parked, and
    no later row is. *)
Lemma rowid_scan_lookup (t : list Row) (i : nat) :
  rowid_scan t !! i = pair i <$> t !! i.
Proof. unfold rowid_scan. apply list_lookup_imap. Qed.

Lemma elem_of_rowid_scan (t : list Row) (i : nat) (r : Row) :
  (i, r) ∈ rowid_scan t ↔ t !! i = Some r.
Proof.
  unfold rowid_scan. rewrite elem_of_lookup_imap. split.
  - intros (j & y & [= -> ->] & H). done.
  - intros H. eauto.
Qed.

Lemma rowid_scan_app (t1 t2 : list Row) :
  rowid_scan (t1 ++ t2) =
  rowid_scan t1 ++ imap (λ n, pair (length t1 + n)) t2.
Proof. unfold rowid_scan. apply imap_app. Qed.

Lemma select_latest_in_Some (p : string) (t : list Row) (i : nat) (r : Row) :
  select_latest_in p t = Some (i, r) ↔
  t !! i = Some r ∧ parked p r ∧
  (∀ j r', i < j → t !! j = Some r' → ¬ parked p r').
Proof.
  unfold select_latest_in. split.
  - intros H. pose proof (last_Some_elem_of _ _ H) as Hin.
    apply list_elem_of_filter in Hin as [Hp Hin]. simpl in Hp.
    apply elem_of_rowid_scan in Hin. split; [done |]. split; [done |].
    apply last_filter_Some in H as (l1 & l2 & Heq & Hall).
    intros j r' Hj Hr' Hp'.
    assert (length l1 = i) as Hlen.
    { assert (rowid_scan t !! length l1 = Some (i, r)) as Hl.
      { rewrite Heq. by rewrite list_lookup_middle. }
      rewrite rowid_scan_lookup in Hl.
      destruct (t !! length l1); simpl in Hl; congruence. }
    assert (rowid_scan t !! j = Some (j, r')) as Hjl.
    { by rewrite rowid_scan_lookup, Hr'. }
    rewrite Heq in Hjl. rewrite lookup_app_r in Hjl by lia.
    rewrite Hlen in Hjl. destruct (j - i) as [| d] eqn:Hd; [lia |].
    simpl in Hjl. rewrite Forall_forall in Hall.
    apply (Hall (j, r')); [| done].
    apply list_elem_of_lookup. eauto.
  - intros (Hi & Hp & Hlater).
    destruct (last (filter (λ ir, parked p ir.2) (rowid_scan t))) as [[k s] |] eqn:E.
    + pose proof (last_Some_elem_of _ _ E) as Hin.
      apply list_elem_of_filter in Hin as [Hps Hin]. simpl in Hps.
      apply elem_of_rowid_scan in Hin.
      apply last_filter_Some in E as (l1 & l2 & Heq & Hall).
      assert (length l1 = k) as Hlen.
      { assert (rowid_scan t !! length l1 = Some (k, s)) as Hl.
        { rewrite Heq. by rewrite list_lookup_middle. }
        rewrite rowid_scan_lookup in Hl.
        destruct (t !! length l1); simpl in Hl; congruence. }
      destruct (lt_eq_lt_dec i k) as [[Hlt | ->] | Hgt].
      * exfalso. by apply (Hlater k s).
      * congruence.
      * exfalso.
        assert (rowid_scan t !! i = Some (i, r)) as Hil.
        { by rewrite rowid_scan_lookup, Hi. }
        rewrite Heq in Hil. rewrite lookup_app_r in Hil by lia.
        rewrite Hlen in Hil. destruct (i - k) as [| d] eqn:Hd; [lia |].
        simpl in Hil. rewrite Forall_forall in Hall.
        apply (Hall (i, r)); [| done].
        apply list_elem_of_lookup. eauto.
    + exfalso. apply last_None in E.
      apply (filter_nil_not_elem_of _ _ (i, r)) in E; [| done].
      apply E. by apply elem_of_rowid_scan.
Qed.

Lemma select_latest_in_None (p : string) (t : list Row) :
  select_latest_in p t = None ↔ ¬ Exists (parked p) t.
Proof.
  unfold select_latest_in. rewrite last_None. split.
  - intros E Hex. apply Exists_exists in Hex as (r & Hr & Hp).
    apply list_elem_of_lookup in Hr as [i Hi].
    apply (filter_nil_not_elem_of _ _ (i, r)) in E; [| done].
    apply E. by apply elem_of_rowid_scan.
  - intros Hno.
    destruct (filter (λ ir, parked p ir.2) (rowid_scan t)) as [| [i r] l] eqn:E;
      [done |].
    exfalso. apply Hno.
    assert ((i, r) ∈ filter (λ ir, parked p ir.2) (rowid_scan t)) as Hin.
    { rewrite E. left. }
    apply list_elem_of_filter in Hin as [Hp Hin]. simpl in Hp.
    apply elem_of_rowid_scan in Hin. apply Exists_exists. exists r.
    split; [| done]. apply list_elem_of_lookup. eauto.
Qed.

End store_access.

(** ** What each operation does to the table *)

(** Case analysis on the probe loop that opens every operation; the
    store it returns has the table and the images it was given. *)
Ltac wait_cases env st st1 W Ht Hi :=
  pose proof (wait_for_db_unlock_table env st) as Ht;
  pose proof (wait_for_db_unlock_images env st) as Hi;
  destruct (wait_for_db_unlock env st) as [[[|] |] st1] eqn:W;
  simpl in Ht, Hi.

Section operations.

Lemma find_next_available_slot_eq env st :
  find_next_available_slot env st =
  if fails env AtOccupied then Raised
  else Ret (first_free (occupied_of (table st)) SLOT_LABELS).
Proof.
  unfold find_next_available_slot, get_occupied_slots.
  by destruct (fails env AtOccupied).
Qed.

(** [log_entry] either appends one row, for a plate that was not parked
    and with the first free label, or leaves the table alone. *)
Lemma log_entry_cases env p st res st' :
  log_entry env p st = (res, st') →
  images st' = images st ∧
  ((res = Ret "entry_logged" ∧ ¬ Exists (parked p) (table st) ∧
    ∃ label, find_next_available_slot env st = Ret (Some label) ∧
      table st' =
      table st ++ [mkRow p (strftime (now env)) Null None None IN (Some label)])
   ∨ (res ≠ Ret "entry_logged" ∧ table st' = table st)).
Proof.
  unfold log_entry. wait_cases env st st1 W Ht Hi; intros H.
  - destruct (fails env AtSelect); [by simplify_eq; auto |].
    destruct (decide (Exists (parked p) (table st1))) as [Hex | Hex];
      [by simplify_eq; auto |].
    rewrite find_next_available_slot_eq in H.
    rewrite find_next_available_slot_eq.
    destruct (fails env AtOccupied); [by simplify_eq; auto |].
    destruct (first_free (occupied_of (table st1)) SLOT_LABELS) as [label |] eqn:Hf;
      [| by simplify_eq; auto].
    destruct (fails env AtWrite); [by simplify_eq; auto |].
    injection H as <- <-. split; [done |]. left.
    rewrite <- Ht. split; [done |]. split; [done |]. exists label.
    by rewrite Hf.
  - by simplify_eq; auto.
  - by simplify_eq; auto.
Qed.

(** [log_exit] has no INSERT and no UPDATE. *)
Lemma log_exit_table env p st :
  table (log_exit env p st).2 = table st.
Proof.
  unfold log_exit. wait_cases env st st1 W Ht Hi; [| done | done].
  destruct (fails env AtSelect); [done |].
  destruct (select_latest_in p (table st1)) as [[i r] |]; [| done].
  destruct (strptime (entry_time r)); [| destruct (fromisoformat (entry_time r))];
    try done; unfold generate_upi_qr;
    by destruct (fails env AtQr), (fails env AtQrSave).
Qed.

(** [confirm_payment_and_exit] either rewrites the latest parked row of the
    plate, with one of its two UPDATEs, or leaves the table alone. *)
Lemma confirm_cases env p st res st' :
  confirm_payment_and_exit env p st = (res, st') →
  images st' = images st ∧
  ((res = Ret true ∧
    ∃ i r, select_latest_in p (table st) = Some (i, r) ∧
      ((truthy_time (exit_time r) = false ∧
        ∃ e, entry_time r = Stamp e ∧
          table st' =
          alter (close_with (strftime (now env))
                   (Z.max 1 (ceil_minutes (now env - e * 1000000)))
                   (Z.max 1 (ceil_minutes (now env - e * 1000000)) * RATE_PER_MIN))
                i (table st))
       ∨ (truthy_time (exit_time r) = true ∧
          table st' = alter force_out i (table st))))
   ∨ (res ≠ Ret true ∧ table st' = table st)).
Proof.
  unfold confirm_payment_and_exit. wait_cases env st st1 W Ht Hi; intros H.
  - destruct (fails env AtSelect); [by simplify_eq; auto |].
    rewrite Ht in H.
    destruct (select_latest_in p (table st)) as [[i r] |] eqn:Hsel;
      [| by simplify_eq; auto].
    destruct (truthy_time (exit_time r)) eqn:Hx; simpl in H.
    + destruct (fails env AtWrite); [by simplify_eq; auto |].
      injection H as <- <-. simpl. split; [done |]. left. split; [done |].
      exists i, r. split; [done |]. right. done.
    + destruct (entry_time r) as [| | e | |] eqn:He; simpl in H;
        try (by simplify_eq; auto).
      destruct (fails env AtWrite); [by simplify_eq; auto |].
      injection H as <- <-. simpl. split; [done |]. left. split; [done |].
      exists i, r. split; [done |]. left. split; [done |]. exists e. done.
  - by simplify_eq; auto.
  - by simplify_eq; auto.
Qed.

End operations.

(** ** C6: allocation *)

Section claim_allocate.

(** C6. Whatever the occupancy, [find_next_available_slot] returns the
    first label of A1..A15 that no IN row references: every label before it
    is occupied, the label itself is carried by no IN row; it returns
    [None] exactly when each of the 15 labels is carried by an IN row; and
    two stores with the same occupied set get the same answer. *)
Theorem find_next_available_slot_first_free (env : Env) (st : Store) :
  fails env AtOccupied = false →
  ∃ res, find_next_available_slot env st = Ret res ∧
    (∀ l, res = Some l →
       (∃ k, SLOT_LABELS !! k = Some l ∧
          (∀ j l', j < k → SLOT_LABELS !! j = Some l' →
             l' ∈ occupied_of (table st))) ∧
       (l ∉ occupied_of (table st)) ∧
       (∀ r, r ∈ table st → status r = IN → slot r ≠ Some l)) ∧
    (res = None ↔
       length SLOT_LABELS = 15 ∧
       (∀ l, l ∈ SLOT_LABELS →
          ∃ r, r ∈ table st ∧ status r = IN ∧ slot r = Some l)) ∧
    (∀ st2, occupied_of (table st2) = occupied_of (table st) →
       find_next_available_slot env st2 = Ret res).
Proof.
  intros Hok. exists (first_free (occupied_of (table st)) SLOT_LABELS).
  rewrite find_next_available_slot_eq, Hok. split; [done |].
  split; [| split].
  - intros l Hl. apply first_free_Some in Hl as (k & Hk & Hfree & Hbefore).
    split; [by eauto |]. split; [done |].
    intros r Hr Hin Hs. apply Hfree. apply elem_of_occupied_of.
    exists r. repeat split; try done.
    apply SLOT_LABELS_nonempty. apply list_elem_of_lookup. eauto.
  - rewrite first_free_None. split.
    + intros H. split; [apply SLOT_LABELS_length |]. intros l Hl.
      apply H, elem_of_occupied_of in Hl as (r & ? & ? & ? & ?). eauto.
    + intros [_ H] l Hl. apply elem_of_occupied_of.
      destruct (H l Hl) as (r & ? & ? & ?). exists r.
      repeat split; try done. by apply SLOT_LABELS_nonempty.
  - intros st2 Heq. rewrite find_next_available_slot_eq, Hok, Heq. done.
Qed.

Lemma find_next_available_slot_first_free_witness :
  ∃ res,
    find_next_available_slot (calm 0)
      (mkStore [parked_row "KA01AB1234" 0 "A1"] ∅ 0) = Ret res ∧
    (∀ l, res = Some l →
       (∃ k, SLOT_LABELS !! k = Some l ∧
          (∀ j l', j < k → SLOT_LABELS !! j = Some l' →
             l' ∈ occupied_of [parked_row "KA01AB1234" 0 "A1"])) ∧
       (l ∉ occupied_of [parked_row "KA01AB1234" 0 "A1"]) ∧
       (∀ r, r ∈ [parked_row "KA01AB1234" 0 "A1"] → status r = IN →
          slot r ≠ Some l)) ∧
    (res = None ↔
       length SLOT_LABELS = 15 ∧
       (∀ l, l ∈ SLOT_LABELS →
          ∃ r, r ∈ [parked_row "KA01AB1234" 0 "A1"] ∧ status r = IN ∧
               slot r = Some l)) ∧
    (∀ st2,
       occupied_of (table st2) = occupied_of [parked_row "KA01AB1234" 0 "A1"] →
       find_next_available_slot (calm 0) st2 = Ret res).
Proof.
  apply (find_next_available_slot_first_free (calm 0)
           (mkStore [parked_row "KA01AB1234" 0 "A1"] ∅ 0)).
  reflexivity.
Defined.

Example allocate_after_A1 :
  find_next_available_slot (calm 0)
    (mkStore [parked_row "KA01AB1234" 0 "A1"] ∅ 0) = Ret (Some "A2").
Proof. vm_compute. reflexivity. Qed.

(** Fifteen cars fill the lot; the sixteenth is turned away with [full];
    once the car on A3 has paid, the next entry gets A3. *)
Example lot_fills_up_and_reuses :
  let lot := enter_all fifteen_plates fresh in
  slot <$> table lot = Some <$> SLOT_LABELS ∧
  log_entry (calm 1000000000) "DL8CAF5030" lot = (Ret "full", lot) ∧
  let lot' := (confirm_payment_and_exit (calm 1090000000) "KA01AB1012" lot).2 in
  find_next_available_slot (calm 1090000000) lot' = Ret (Some "A3") ∧
  last (table (log_entry (calm 1100000000) "DL8CAF5030" lot').2) =
  Some (parked_row "DL8CAF5030" 1100 "A3").
Proof. vm_compute. repeat split; reflexivity. Qed.

End claim_allocate.

(** ** C3: entry logging *)

Section claim_log_entry.

Lemma filter_no_match {A} (P : A → Prop) `{!∀ x, Decision (P x)} (l : list A) :
  ¬ Exists P l → filter P l = [].
Proof.
  induction l as [| x l IH]; [done |]. intros Hno.
  rewrite filter_cons_False; [apply IH |]; intros Hx; apply Hno.
  - by right.
  - by left.
Qed.

(** A plate with an IN row is turned away: nothing is inserted, and when
    the store answers the call returns [already_in]. *)
Lemma log_entry_already_in env p st :
  Exists (parked p) (table st) →
  (log_entry env p st).1 ≠ Ret "entry_logged" ∧
  table (log_entry env p st).2 = table st ∧
  ((wait_for_db_unlock env st).1 = Ret true → fails env AtSelect = false →
   (log_entry env p st).1 = Ret "already_in").
Proof.
  intros Hex. unfold log_entry. wait_cases env st st1 W Ht Hi; simpl.
  - destruct (fails env AtSelect); simpl; [by auto |].
    rewrite decide_True by (by rewrite Ht). simpl. by auto.
  - split; [done |]. split; [done |]. intros [=].
  - split; [done |]. split; [done |]. intros [=].
Qed.

(** C3. A successful [log_entry] for plate [p] appends exactly one row:
    plate [p], status IN, the current time as entry time, the slot handed
    out by the allocator.  Afterwards exactly one IN row exists for [p],
    and as long as an IN row for [p] exists (in particular right away) a
    further [log_entry] for [p] inserts nothing and, the store answering,
    returns [already_in]. *)
Theorem log_entry_once (env : Env) (p : string) (st st' : Store) :
  log_entry env p st = (Ret "entry_logged", st') →
  (∃ label,
     find_next_available_slot env st = Ret (Some label) ∧
     table st' =
     table st ++ [mkRow p (strftime (now env)) Null None None IN (Some label)]) ∧
  length (filter (parked p) (table st')) = 1 ∧
  Exists (parked p) (table st') ∧
  (∀ env2 st2, Exists (parked p) (table st2) →
     (log_entry env2 p st2).1 ≠ Ret "entry_logged" ∧
     table (log_entry env2 p st2).2 = table st2 ∧
     ((wait_for_db_unlock env2 st2).1 = Ret true →
      fails env2 AtSelect = false →
      (log_entry env2 p st2).1 = Ret "already_in")).
Proof.
  intros H. apply log_entry_cases in H as [_ [Hok | [Hne _]]]; [| done].
  destruct Hok as (_ & Hno & label & Hslot & Ht).
  split; [by eauto |]. rewrite Ht. split; [| split].
  - rewrite filter_app, (filter_no_match _ _ Hno).
    rewrite (filter_singleton_True _ _ []) by (by split). done.
  - apply Exists_app. right. left. by split.
  - intros env2 st2. apply log_entry_already_in.
Qed.

Lemma log_entry_once_witness :
  (∃ label,
     find_next_available_slot (calm 1000000000) fresh = Ret (Some label) ∧
     table (log_entry (calm 1000000000) "MH12AB1234" fresh).2 =
     table fresh ++
       [mkRow "MH12AB1234" (strftime (now (calm 1000000000))) Null None None IN
          (Some label)]) ∧
  length (filter (parked "MH12AB1234")
            (table (log_entry (calm 1000000000) "MH12AB1234" fresh).2)) = 1 ∧
  Exists (parked "MH12AB1234")
    (table (log_entry (calm 1000000000) "MH12AB1234" fresh).2) ∧
  (∀ env2 st2, Exists (parked "MH12AB1234") (table st2) →
     (log_entry env2 "MH12AB1234" st2).1 ≠ Ret "entry_logged" ∧
     table (log_entry env2 "MH12AB1234" st2).2 = table st2 ∧
     ((wait_for_db_unlock env2 st2).1 = Ret true →
      fails env2 AtSelect = false →
      (log_entry env2 "MH12AB1234" st2).1 = Ret "already_in")).
Proof.
  apply (log_entry_once (calm 1000000000) "MH12AB1234" fresh
           (log_entry (calm 1000000000) "MH12AB1234" fresh).2).
  vm_compute. reflexivity.
Defined.

Example log_entry_twice :
  let st1 := (log_entry (calm 1000000000) "MH12AB1234" fresh).2 in
  table st1 = [parked_row "MH12AB1234" 1000 "A1"] ∧
  log_entry (calm 1000000001) "MH12AB1234" st1 = (Ret "already_in", st1).
Proof. vm_compute. split; reflexivity. Qed.

End claim_log_entry.

(** ** C2: the ledger invariants *)

Section claim_invariants.

Lemma log_entry_change env p st : table_change (table st) (table (log_entry env p st).2).
Proof.
  destruct (log_entry env p st) as [res st'] eqn:E.
  apply log_entry_cases in E as [_ [Hok | [_ Hsame]]]; simpl.
  - destruct Hok as (_ & Hno & label & Hslot & ->).
    rewrite find_next_available_slot_eq in Hslot.
    destruct (fails env AtOccupied); [discriminate Hslot |].
    assert (first_free (occupied_of (table st)) SLOT_LABELS = Some label)
      as Hff by congruence.
    apply first_free_Some in Hff as (k & Hk & Hfree & _).
    apply (change_insert _ p (now env `div` 1000000)%Z label); [done | done |].
    apply SLOT_LABELS_nonempty, list_elem_of_lookup. eauto.
  - rewrite Hsame. constructor.
Qed.

Lemma log_exit_change env p st : table_change (table st) (table (log_exit env p st).2).
Proof. rewrite log_exit_table. constructor. Qed.

Lemma confirm_change env p st :
  table_change (table st) (table (confirm_payment_and_exit env p st).2).
Proof.
  destruct (confirm_payment_and_exit env p st) as [res st'] eqn:E.
  apply confirm_cases in E as [_ [Hok | [_ Hsame]]]; simpl.
  - destruct Hok as (_ & i & r & Hsel & Hupd).
    apply select_latest_in_Some in Hsel as (Hi & [_ Hin] & _).
    destruct Hupd as [(_ & e & _ & ->) | (_ & ->)];
      by apply (change_close _ i r).
  - rewrite Hsame. constructor.
Qed.

Lemma ledger_step_change st st' :
  ledger_step st st' → table_change (table st) (table st').
Proof.
  intros []; auto using log_entry_change, log_exit_change, confirm_change.
Qed.

Lemma parked_at_occupied (t : list Row) i r l :
  t !! i = Some r → status r = IN → slot r = Some l → l ≠ "" →
  l ∈ occupied_of t.
Proof.
  intros Hi Hin Hs Hne. apply elem_of_occupied_of. exists r.
  repeat split; try done. apply list_elem_of_lookup. eauto.
Qed.

Lemma table_change_inv t t' :
  table_change t t' → ledger_inv t → ledger_inv t'.
Proof.
  intros Hc [Hplate Hslot].
  destruct Hc as [| p tm label Hno Hfree Hne | k r f Hk Hin Hp Hs Ho _].
  - done.
  - split.
    + intros i j ri rj Hi Hj Si Sj Heq.
      apply lookup_snoc_Some in Hi as [[Hil Hi] | [-> <-]];
        apply lookup_snoc_Some in Hj as [[Hjl Hj] | [-> <-]].
      * by apply (Hplate i j ri rj).
      * exfalso. apply Hno. apply Exists_exists. exists ri.
        split; [apply list_elem_of_lookup; eauto | by split].
      * exfalso. apply Hno. apply Exists_exists. exists rj.
        split; [apply list_elem_of_lookup; eauto | by split].
      * done.
    + intros i j ri rj l Hi Hj Si Sj Li Lj.
      apply lookup_snoc_Some in Hi as [[Hil Hi] | [-> <-]];
        apply lookup_snoc_Some in Hj as [[Hjl Hj] | [-> <-]].
      * by apply (Hslot i j ri rj l).
      * exfalso. simpl in Lj. injection Lj as <-. apply Hfree.
        by apply (parked_at_occupied t i ri).
      * exfalso. simpl in Li. injection Li as <-. apply Hfree.
        by apply (parked_at_occupied t j rj).
      * done.
  - assert (∀ j rj, alter f k t !! j = Some rj → status rj = IN →
              t !! j = Some rj) as Hold.
    { intros j rj Hj Sj. rewrite list_lookup_alter in Hj.
      destruct (decide (k = j)) as [<- |]; [| done].
      rewrite Hk in Hj. simpl in Hj. injection Hj as <-. congruence. }
    split.
    + intros i j ri rj Hi Hj Si Sj Heq.
      apply (Hplate i j ri rj); auto.
    + intros i j ri rj l Hi Hj Si Sj Li Lj.
      apply (Hslot i j ri rj l); auto.
Qed.

(** A label held by an IN row is free after the change exactly when that
    row has become OUT. *)
Lemma table_change_release t t' i r l :
  table_change t t' → ledger_inv t →
  t !! i = Some r → status r = IN → slot r = Some l → l ≠ "" →
  (l ∉ occupied_of t' ↔ ∃ r', t' !! i = Some r' ∧ status r' = OUT).
Proof.
  intros Hc [_ Hslot] Hi Hin Hs Hne.
  destruct Hc as [| p tm label Hno Hfree Hlne | k rk f Hk Hink Hp Hsk Ho _].
  - split.
    + intros Hfree. exfalso. apply Hfree. by apply (parked_at_occupied t i r).
    + intros (r' & Hr' & Hout). congruence.
  - assert ((t ++ [mkRow p (Stamp tm) Null None None IN (Some label)]) !! i
            = Some r) as Hi'. { apply lookup_snoc_Some. left. split; [| done]. by eapply lookup_lt_Some. }
    split.
    + intros Hf. exfalso. apply Hf. by eapply parked_at_occupied.
    + intros (r' & Hr' & Hout). congruence.
  - destruct (decide (k = i)) as [-> | Hki].
    + assert (rk = r) as -> by congruence. split.
      * intros _. exists (f r). split; [| done].
        by rewrite list_lookup_alter_eq, Hi.
      * intros _ Hocc. apply elem_of_occupied_of in Hocc
          as (r2 & Hr2 & Hin2 & Hs2 & _).
        apply list_elem_of_lookup in Hr2 as [j Hj].
        rewrite list_lookup_alter in Hj.
        destruct (decide (i = j)) as [<- | Hij].
        -- rewrite Hi in Hj. simpl in Hj. injection Hj as <-. congruence.
        -- apply Hij. by apply (Hslot i j r r2 l).
    + assert (alter f k t !! i = Some r) as Hi'.
      { by rewrite list_lookup_alter_ne. }
      split.
      * intros Hf. exfalso. apply Hf. by eapply parked_at_occupied.
      * intros (r' & Hr' & Hout). congruence.
Qed.

(** Every row of a ledger that grew from well-formed rows has an entry
    time that [strptime] reads: the open branch of
    [confirm_payment_and_exit] never stumbles on it. *)
Lemma reachable_rows_stamped (st st' : Store) :
  Forall stamped (table st) → rtc ledger_step st st' →
  Forall stamped (table st').
Proof.
  intros Hall Hsteps. induction Hsteps as [| x y z Hxy _ IH]; [done |].
  apply IH. apply ledger_step_change in Hxy.
  destruct Hxy as [| p secs label _ _ _ | i r f Hi _ _ _ _ He]; [done | |].
  - apply Forall_app. split; [done |]. apply Forall_singleton. by exists secs.
  - rewrite Forall_lookup in Hall |- *. intros j rj Hj.
    rewrite list_lookup_alter in Hj. destruct (decide (i = j)) as [<- |].
    + rewrite Hi in Hj. simpl in Hj. injection Hj as <-.
      destruct (Hall i r Hi) as [secs Hs]. exists secs. congruence.
    + by apply (Hall j).
Qed.

(** C2. Starting from a table with at most one IN row per plate and at
    most one IN row per slot, any sequence of calls of [log_entry],
    [log_exit] and [confirm_payment_and_exit] leads to a table with the
    same two properties; and from such a state, a label held by an IN row
    is free after one more call exactly when that call has turned the
    row's status to OUT. *)
Theorem ledger_inv_reachable (st st' : Store) :
  ledger_inv (table st) → rtc ledger_step st st' →
  ledger_inv (table st') ∧
  (∀ st'' i r l, ledger_step st' st'' →
     table st' !! i = Some r → status r = IN → slot r = Some l → l ≠ "" →
     (l ∉ occupied_of (table st'') ↔
      ∃ r', table st'' !! i = Some r' ∧ status r' = OUT)).
Proof.
  intros Hinv Hsteps.
  assert (ledger_inv (table st')) as Hinv'.
  { induction Hsteps as [| x y z Hxy _ IH]; [done |].
    apply IH. eapply table_change_inv; [| done].
    by apply ledger_step_change. }
  split; [done |]. intros st'' i r l Hstep.
  apply table_change_release; [| done]. by apply ledger_step_change.
Qed.

Lemma ledger_inv_reachable_witness :
  ledger_inv (table (log_entry (calm 1000000000) "MH12AB1234" fresh).2) ∧
  (∀ st'' i r l,
     ledger_step (log_entry (calm 1000000000) "MH12AB1234" fresh).2 st'' →
     table (log_entry (calm 1000000000) "MH12AB1234" fresh).2 !! i = Some r →
     status r = IN → slot r = Some l → l ≠ "" →
     (l ∉ occupied_of (table st'') ↔
      ∃ r', table st'' !! i = Some r' ∧ status r' = OUT)).
Proof.
  apply (ledger_inv_reachable fresh).
  - split; intros i j ri rj; simpl; intros; simplify_eq.
  - apply rtc_once. constructor.
Defined.

End claim_invariants.

(** ** The binary64 quotient *)

Section binary64_facts.
Import binary64.
#[local] Open Scope Z_scope.

Lemma up_pos e : 0 < up e.
Proof. unfold up. apply Z.pow_pos_nonneg; lia. Qed.

Lemma dn_pos e : 0 < dn e.
Proof. unfold dn. apply Z.pow_pos_nonneg; lia. Qed.

Lemma up_dn_shift e k :
  0 ≤ k → up (e + k) * dn e = 2 ^ k * (up e * dn (e + k)).
Proof.
  intros Hk. unfold up, dn.
  rewrite <- !Z.pow_add_r by lia. f_equal. lia.
Qed.

Lemma up_dn_le e1 e2 : e1 ≤ e2 → up e1 * dn e2 ≤ up e2 * dn e1.
Proof.
  intros H. pose proof (up_dn_shift e1 (e2 - e1) ltac:(lia)) as S.
  replace (e1 + (e2 - e1)) with e2 in S by lia.
  rewrite S.
  assert (0 < 2 ^ (e2 - e1)) by (apply Z.pow_pos_nonneg; lia).
  pose proof (up_pos e1). pose proof (dn_pos e2). nia.
Qed.

Lemma up_dn_lt e1 e2 : e1 < e2 → 2 * (up e1 * dn e2) ≤ up e2 * dn e1.
Proof.
  intros H. pose proof (up_dn_shift e1 (e2 - e1) ltac:(lia)) as S.
  replace (e1 + (e2 - e1)) with e2 in S by lia.
  rewrite S.
  assert (2 ^ 1 ≤ 2 ^ (e2 - e1)) by (apply Z.pow_le_mono_r; lia).
  change (2 ^ 1) with 2 in *.
  pose proof (up_pos e1). pose proof (dn_pos e2). nia.
Qed.

Lemma round_half_even_floor n d :
  0 < d → n `div` d ≤ round_half_even n d ≤ n `div` d + 1.
Proof.
  intros Hd. unfold round_half_even.
  repeat case_match; lia.
Qed.

Lemma round_half_even_ge n d j :
  0 < d → j * d ≤ n → j ≤ round_half_even n d.
Proof.
  intros Hd H. pose proof (round_half_even_floor n d Hd).
  assert (j ≤ n `div` d) by (apply Z.div_le_lower_bound; lia). lia.
Qed.

Lemma round_half_even_le n d j :
  0 < d → n ≤ j * d → round_half_even n d ≤ j.
Proof.
  intros Hd H. unfold round_half_even.
  pose proof (Z.div_mod n d ltac:(lia)) as E.
  pose proof (Z.mod_pos_bound n d Hd) as B.
  repeat case_match; nia.
Qed.


Lemma round_half_even_mono n1 d1 n2 d2 :
  0 < d1 → 0 < d2 → n1 * d2 ≤ n2 * d1 →
  round_half_even n1 d1 ≤ round_half_even n2 d2.
Proof.
  intros Hd1 Hd2 H.
  pose proof (Z.div_mod n1 d1 ltac:(lia)) as E1.
  pose proof (Z.mod_pos_bound n1 d1 Hd1) as B1.
  pose proof (Z.div_mod n2 d2 ltac:(lia)) as E2.
  pose proof (Z.mod_pos_bound n2 d2 Hd2) as B2.
  pose proof (round_half_even_floor n1 d1 Hd1) as F1.
  pose proof (round_half_even_floor n2 d2 Hd2) as F2.
  assert (Hq : n1 `div` d1 ≤ n2 `div` d2).
  { apply Z.div_le_lower_bound; [done |].
    assert (d1 * (n1 `div` d1) ≤ n1) by lia.
    apply (Z.mul_le_mono_pos_r _ _ d1); [done |]. nia. }
  destruct (Z.eq_dec (n1 `div` d1) (n2 `div` d2)) as [Heq | Hne]; [| lia].
  assert (Hr : (n1 `mod` d1) * d2 ≤ (n2 `mod` d2) * d1) by nia.
  unfold round_half_even. rewrite Heq.
  repeat case_match; try lia; nia.
Qed.

Lemma exponent_of_spec n d :
  0 < n → 0 < d →
  2 ^ 52 * (d * up (exponent_of n d)) ≤ n * dn (exponent_of n d) <
  2 ^ 53 * (d * up (exponent_of n d)).
Proof.
  intros Hn Hd. unfold exponent_of.
  set (e0 := Z.log2 n - Z.log2 d - 52).
  pose proof (Z.log2_spec n Hn) as [Ln Un].
  pose proof (Z.log2_spec d Hd) as [Ld Ud].
  pose proof (Z.log2_nonneg n) as Pn. pose proof (Z.log2_nonneg d) as Pd.
  rewrite Z.pow_succ_r in Un, Ud by done.
  assert (B : 2 ^ 51 * (d * up e0) < n * dn e0 < 2 ^ 53 * (d * up e0)).
  { destruct (Z.le_gt_cases 0 e0) as [He | He].
    - replace (up e0) with (2 ^ e0) by (unfold up; f_equal; lia).
      replace (dn e0) with 1 by (unfold dn; replace (Z.max 0 (- e0)) with 0 by lia; done).
      assert (E : 2 ^ Z.log2 n = 2 ^ 52 * (2 ^ Z.log2 d * 2 ^ e0)).
      { rewrite <- !Z.pow_add_r by lia. f_equal. lia. }
      assert (0 < 2 ^ e0) by (apply Z.pow_pos_nonneg; lia).
      change (2 ^ 51) with 2251799813685248.
      change (2 ^ 52) with 4503599627370496 in E.
      change (2 ^ 53) with 9007199254740992.
      nia.
    - replace (up e0) with 1 by (unfold up; replace (Z.max 0 e0) with 0 by lia; done).
      replace (dn e0) with (2 ^ (- e0)) by (unfold dn; f_equal; lia).
      assert (E : 2 ^ Z.log2 n * 2 ^ (- e0) = 2 ^ 52 * 2 ^ Z.log2 d).
      { rewrite <- !Z.pow_add_r by lia. f_equal. lia. }
      assert (0 < 2 ^ (- e0)) by (apply Z.pow_pos_nonneg; lia).
      change (2 ^ 51) with 2251799813685248.
      change (2 ^ 52) with 4503599627370496 in E.
      change (2 ^ 53) with 9007199254740992.
      nia. }
  destruct (Z.leb_spec (2 ^ 52 * (d * up e0)) (n * dn e0)) as [H | H]; [lia |].
  pose proof (up_dn_shift (e0 - 1) 1 ltac:(lia)) as S.
  replace (e0 - 1 + 1) with e0 in S by lia. change (2 ^ 1) with 2 in S.
  pose proof (up_pos e0). pose proof (dn_pos e0).
  pose proof (up_pos (e0 - 1)). pose proof (dn_pos (e0 - 1)).
  change (2 ^ 51) with 2251799813685248 in B.
  change (2 ^ 52) with 4503599627370496 in *.
  change (2 ^ 53) with 9007199254740992 in *.
  split.
  - apply (Z.mul_le_mono_pos_r _ _ (dn e0)); [done |]. nia.
  - apply (Z.mul_lt_mono_pos_r (dn e0)); [done |]. nia.
Qed.

Lemma of_ratio_pos n d :
  0 < n → 0 < d →
  of_ratio n d =
    mk (round_half_even (n * dn (exponent_of n d)) (d * up (exponent_of n d)))
       (exponent_of n d).
Proof.
  intros Hn Hd. unfold of_ratio.
  destruct (Z.eqb_spec n 0) as [-> | _]; [lia |].
  rewrite (Z.abs_eq n) by lia. rewrite (Z.sgn_pos n) by done.
  by rewrite Z.mul_1_l.
Qed.

Lemma of_ratio_mant n d :
  0 < n → 0 < d → 2 ^ 52 ≤ mant (of_ratio n d) ≤ 2 ^ 53.
Proof.
  intros Hn Hd. rewrite of_ratio_pos by done. simpl.
  pose proof (exponent_of_spec n d Hn Hd) as [L U].
  pose proof (up_pos (exponent_of n d)).
  split.
  - apply round_half_even_ge; lia.
  - apply round_half_even_le; lia.
Qed.

Lemma exponent_of_mono n1 d1 n2 d2 :
  0 < n1 → 0 < d1 → 0 < n2 → 0 < d2 → n1 * d2 ≤ n2 * d1 →
  exponent_of n1 d1 ≤ exponent_of n2 d2.
Proof.
  intros Hn1 Hd1 Hn2 Hd2 H.
  pose proof (exponent_of_spec n1 d1 Hn1 Hd1) as [L1 _].
  pose proof (exponent_of_spec n2 d2 Hn2 Hd2) as [_ U2].
  set (e1 := exponent_of n1 d1) in *. set (e2 := exponent_of n2 d2) in *.
  destruct (Z.le_gt_cases e1 e2) as [| Hlt]; [done | exfalso].
  pose proof (up_dn_lt e2 e1 Hlt) as S.
  pose proof (up_pos e1). pose proof (dn_pos e1).
  pose proof (up_pos e2). pose proof (dn_pos e2).
  change (2 ^ 52) with 4503599627370496 in *.
  change (2 ^ 53) with 9007199254740992 in *.
  assert (A1 : 4503599627370496 * (d1 * up e1) * (d2 * dn e2) ≤
               n1 * dn e1 * (d2 * dn e2))
    by (apply Z.mul_le_mono_nonneg_r; lia).
  assert (A2 : n1 * d2 * (dn e1 * dn e2) ≤ n2 * d1 * (dn e1 * dn e2))
    by (apply Z.mul_le_mono_nonneg_r; lia).
  assert (A3 : n2 * dn e2 * (d1 * dn e1) <
               9007199254740992 * (d2 * up e2) * (d1 * dn e1))
    by (apply Z.mul_lt_mono_pos_r; lia).
  assert (A4 : 2 * (up e2 * dn e1) * (d1 * d2) ≤ up e1 * dn e2 * (d1 * d2))
    by (apply Z.mul_le_mono_nonneg_r; lia).
  lia.
Qed.

Lemma of_ratio_mono n1 d1 n2 d2 :
  0 < n1 → 0 < d1 → 0 < n2 → 0 < d2 → n1 * d2 ≤ n2 * d1 →
  le (of_ratio n1 d1) (of_ratio n2 d2).
Proof.
  intros Hn1 Hd1 Hn2 Hd2 H.
  pose proof (exponent_of_mono _ _ _ _ Hn1 Hd1 Hn2 Hd2 H) as He.
  pose proof (of_ratio_mant n1 d1 Hn1 Hd1) as [_ M1].
  pose proof (of_ratio_mant n2 d2 Hn2 Hd2) as [M2 _].
  revert M1 M2. rewrite !of_ratio_pos by done. unfold le. simpl.
  set (e1 := exponent_of n1 d1) in *. set (e2 := exponent_of n2 d2) in *.
  intros M1 M2.
  pose proof (up_pos e1). pose proof (dn_pos e1).
  pose proof (up_pos e2). pose proof (dn_pos e2).
  destruct (Z.eq_dec e1 e2) as [Heq | Hne].
  - rewrite <- Heq.
    apply Z.mul_le_mono_nonneg_r; [lia |].
    apply Z.mul_le_mono_nonneg_r; [lia |].
    apply round_half_even_mono; [lia .. |].
    replace (n1 * dn e1 * (d2 * up e1)) with (n1 * d2 * (dn e1 * up e1)) by ring.
    replace (n2 * dn e1 * (d1 * up e1)) with (n2 * d1 * (dn e1 * up e1)) by ring.
    apply Z.mul_le_mono_nonneg_r; lia.
  - pose proof (up_dn_lt e1 e2 ltac:(lia)) as S.
    change (2 ^ 52) with 4503599627370496 in *.
    change (2 ^ 53) with 9007199254740992 in *.
    set (m1 := round_half_even _ _) in *. set (m2 := round_half_even (n2 * _) _) in *.
    assert (A1 : m1 * (up e1 * dn e2) ≤ 9007199254740992 * (up e1 * dn e2))
      by (apply Z.mul_le_mono_nonneg_r; lia).
    assert (A2 : 4503599627370496 * (up e2 * dn e1) ≤ m2 * (up e2 * dn e1))
      by (apply Z.mul_le_mono_nonneg_r; lia).
    lia.
Qed.


Lemma ceil_mono x y : le x y → ceil x ≤ ceil y.
Proof.
  unfold le, ceil. intros H.
  pose proof (dn_pos (expo x)) as Hx. pose proof (dn_pos (expo y)) as Hy.
  set (a := mant x * up (expo x)) in *. set (b := mant y * up (expo y)) in *.
  assert ((- b) `div` dn (expo y) ≤ (- a) `div` dn (expo x)); [| lia].
  apply Z.div_le_lower_bound; [done |].
  pose proof (Z.mul_div_le (- b) (dn (expo y)) Hy).
  apply (Z.mul_le_mono_pos_r _ _ (dn (expo y))); [done |]. nia.
Qed.

Lemma ceil_le x j : mant x * up (expo x) ≤ j * dn (expo x) → ceil x ≤ j.
Proof.
  unfold ceil. intros H. pose proof (dn_pos (expo x)) as Hx.
  assert (- j ≤ (- (mant x * up (expo x))) `div` dn (expo x)); [| lia].
  apply Z.div_le_lower_bound; [done |]. lia.
Qed.


Lemma of_ratio_neg n d : n < 0 → 0 < d → mant (of_ratio n d) < 0.
Proof.
  intros Hn Hd. unfold of_ratio.
  destruct (Z.eqb_spec n 0) as [-> | _]; [lia |].
  rewrite (Z.sgn_neg n) by done. simpl.
  pose proof (exponent_of_spec (Z.abs n) d ltac:(lia) Hd) as [L _].
  pose proof (up_pos (exponent_of (Z.abs n) d)).
  assert (2 ^ 52 ≤ round_half_even (Z.abs n * dn (exponent_of (Z.abs n) d))
                    (d * up (exponent_of (Z.abs n) d)))
    by (apply round_half_even_ge; lia).
  change (2 ^ 52) with 4503599627370496 in *. lia.
Qed.

Lemma div_int_mono x y k :
  0 < mant x → 0 < mant y → 0 < k → le x y → le (div_int x k) (div_int y k).
Proof.
  intros Hx Hy Hk H. unfold div_int, le in *.
  pose proof (up_pos (expo x)). pose proof (dn_pos (expo x)).
  pose proof (up_pos (expo y)). pose proof (dn_pos (expo y)).
  apply of_ratio_mono; [nia | nia | nia | nia |].
  replace (mant x * up (expo x) * (k * dn (expo y)))
    with (mant x * up (expo x) * dn (expo y) * k) by ring.
  replace (mant y * up (expo y) * (k * dn (expo x)))
    with (mant y * up (expo y) * dn (expo x) * k) by ring.
  apply Z.mul_le_mono_nonneg_r; lia.
Qed.



Lemma ceil_minutes_nonpos (us : Z) : us ≤ 0 → ceil_minutes us ≤ 0.
Proof.
intros H. unfold ceil_minutes, total_seconds.
destruct (Z.eq_dec us 0) as [-> | Hne]; [done |].
pose proof (of_ratio_neg us 1000000 ltac:(lia) ltac:(lia)) as M1.
set (x := binary64.of_ratio us 1000000) in *.
pose proof (up_pos (binary64.expo x)). pose proof (dn_pos (binary64.expo x)).
pose proof (of_ratio_neg (binary64.mant x * binary64.up (binary64.expo x))
              (60 * binary64.dn (binary64.expo x)) ltac:(nia) ltac:(lia)) as M2.
fold (binary64.div_int x 60) in M2.
set (y := binary64.div_int x 60) in *.
pose proof (up_pos (binary64.expo y)).
apply ceil_le. pose proof (dn_pos (binary64.expo y)). nia.
Qed.

Lemma ceil_minutes_mono_pos (a b : Z) :
0 < a → a ≤ b → ceil_minutes a ≤ ceil_minutes b.
Proof.
intros Ha Hab. unfold ceil_minutes, total_seconds.
apply ceil_mono, div_int_mono; [| | done |].
- pose proof (of_ratio_mant a 1000000 Ha ltac:(lia)).
  change (2 ^ 52) with 4503599627370496 in *. lia.
- pose proof (of_ratio_mant b 1000000 ltac:(lia) ltac:(lia)).
  change (2 ^ 52) with 4503599627370496 in *. lia.
- apply of_ratio_mono; lia.
Qed.


(** The roundings on some quotients: one tenth; two ties, each taken to
    the even mantissa; the quotients of a stay of 61 seconds and of the
    stay of 17179869240.000001 seconds, whose microsecond is lost. *)
Example binary64_samples :
  binary64.of_ratio 1 10 = binary64.mk 7205759403792794 (-56) ∧
  binary64.of_ratio 9007199254740993 1 = binary64.mk 4503599627370496 1 ∧
  binary64.of_ratio 9007199254740995 1 = binary64.mk 4503599627370498 1 ∧
  total_seconds (-61000000) = binary64.mk (-8584986789675008) (-47) ∧
  binary64.div_int (binary64.mk 8584986789675008 (-47)) 60 =
    binary64.mk 4578659621160004 (-52) ∧
  ceil_minutes 61000000 = 2 ∧
  total_seconds 17179869240000001 = binary64.mk 4503599642050560 (-18) ∧
  total_seconds 17179869240000000 = binary64.mk 4503599642050560 (-18) ∧
  ceil_minutes 17179869240000001 = 286331154 ∧
  ceil_minutes (-1) = 0.
Proof. vm_compute. done. Qed.

End binary64_facts.

(** ** C5: billing *)

Section claim_billing.

(** The ceiling of the specification, told by its two bounds. *)
Lemma spec_duration_minutes_bounds (elapsed_us m : Z) :
  spec_duration_minutes elapsed_us = m ↔
  (60000000 * (m - 1) < Z.max 1000000 elapsed_us ≤ 60000000 * m)%Z.
Proof.
  unfold spec_duration_minutes.
  generalize (Z.max 1000000 elapsed_us). intros x.
  pose proof (Z.div_mod (- x) 60000000 ltac:(lia)).
  pose proof (Z.mod_pos_bound (- x) 60000000 ltac:(lia)).
  lia.
Qed.

Lemma spec_duration_minutes_ge_1 (elapsed_us : Z) :
  (1 ≤ spec_duration_minutes elapsed_us)%Z.
Proof.
  pose proof (proj1 (spec_duration_minutes_bounds elapsed_us _) eq_refl). lia.
Qed.


(** What a successful [log_exit] returns. *)
Lemma log_exit_quote env p st d st' :
  log_exit env p st = (Ret (VDict d), st') →
  ∃ i r t,
    select_latest_in p (table st) = Some (i, r) ∧
    entry_instant (entry_time r) = Some t ∧
    d = mkExitInfo p (entry_time r) (strftime (now env))
          (Z.max 1 (ceil_minutes (now env - t)))
          (Z.max 1 (ceil_minutes (now env - t)) * RATE_PER_MIN)
          ("IMAGES/upi_qr_" +:+ p +:+ ".png")
          (if truthy (slot r) then default "" (slot r) else "Unknown").
Proof.
  unfold log_exit. wait_cases env st st1 W Ht Hi; intros H; [| done | done].
  destruct (fails env AtSelect); [done |]. rewrite Ht in H.
  destruct (select_latest_in p (table st)) as [[i r] |]; [| done].
  fold (entry_instant (entry_time r)) in H.
  destruct (entry_instant (entry_time r)) as [t |] eqn:Hparse; [| done].
  unfold generate_upi_qr in H.
  destruct (fails env AtQr); [by destruct (fails env AtQrSave) |].
  injection H as <- _. by exists i, r, t.
Qed.




End claim_billing.

(** ** C7: the exit quote *)

Section claim_quote.

(** With the store answering and nothing raising, [log_exit] quotes the
    latest IN row of the plate against [now]. *)
Lemma log_exit_ok env p st i r t :
  (wait_for_db_unlock env st).1 = Ret true →
  fails env AtSelect = false → fails env AtQr = false →
  select_latest_in p (table st) = Some (i, r) →
  entry_instant (entry_time r) = Some t →
  (log_exit env p st).1 =
  Ret (VDict
         (mkExitInfo p (entry_time r) (strftime (now env))
            (Z.max 1 (ceil_minutes (now env - t)))
            (Z.max 1 (ceil_minutes (now env - t)) * RATE_PER_MIN)
            ("IMAGES/upi_qr_" +:+ p +:+ ".png")
            (if truthy (slot r) then default "" (slot r) else "Unknown"))).
Proof.
  intros Hw Hsel Hqr Hrow Hparse. unfold log_exit.
  wait_cases env st st1 W Ht Hi; simpl in Hw; try discriminate Hw.
  rewrite Hsel, Ht, Hrow. fold (entry_instant (entry_time r)).
  rewrite Hparse. unfold generate_upi_qr. rewrite Hqr. done.
Qed.

Lemma quote_calls_table p envs st : table (quote_calls p envs st) = table st.
Proof.
  unfold quote_calls. revert st. induction envs as [| env envs IH]; intros st;
    simpl; [done |].
  rewrite IH. apply log_exit_table.
Qed.

(** C7. [log_exit] leaves the table as it found it, whatever the plate and
    the environment: no row changes status or exit time, no row is created.
    So after any number of calls for a plate whose stay is open the table
    is still the same, the stay still open, and each further call, the
    store answering, returns a quote computed against its own [now]. *)
Theorem log_exit_never_mutates (env : Env) (p : string) (st : Store) :
  table (log_exit env p st).2 = table st ∧
  (∀ envs, table (quote_calls p envs st) = table st) ∧
  (∀ envs i r t,
     select_latest_in p (table st) = Some (i, r) →
     entry_instant (entry_time r) = Some t →
     (wait_for_db_unlock env (quote_calls p envs st)).1 = Ret true →
     fails env AtSelect = false → fails env AtQr = false →
     select_latest_in p (table (quote_calls p envs st)) = Some (i, r) ∧
     ∃ d, (log_exit env p (quote_calls p envs st)).1 = Ret (VDict d) ∧
       q_exit_time d = strftime (now env) ∧
       q_duration_min d = Z.max 1 (ceil_minutes (now env - t)) ∧
       q_amount d = (q_duration_min d * RATE_PER_MIN)%Z).
Proof.
  split; [apply log_exit_table |].
  split; [intros envs; apply quote_calls_table |].
  intros envs i r t Hrow Hparse Hw Hsel Hqr.
  rewrite quote_calls_table. split; [done |].
  eexists. split.
  - apply (log_exit_ok env p _ i r t); try done.
    by rewrite quote_calls_table.
  - done.
Qed.

Lemma log_exit_never_mutates_witness :
  select_latest_in "MH12AB1234"
    (table (quote_calls "MH12AB1234" [calm 1030000000; calm 1045000000]
              (mkStore [parked_row "MH12AB1234" 1000 "A1"] ∅ 0)))
  = Some (0, parked_row "MH12AB1234" 1000 "A1") ∧
  ∃ d,
    (log_exit (calm 1061000000) "MH12AB1234"
       (quote_calls "MH12AB1234" [calm 1030000000; calm 1045000000]
          (mkStore [parked_row "MH12AB1234" 1000 "A1"] ∅ 0))).1
    = Ret (VDict d) ∧
    q_exit_time d = strftime (now (calm 1061000000)) ∧
    q_duration_min d =
    Z.max 1 (ceil_minutes (now (calm 1061000000) - 1000000000)) ∧
    q_amount d = (q_duration_min d * RATE_PER_MIN)%Z.
Proof.
  apply (proj2 (proj2 (log_exit_never_mutates (calm 1061000000) "MH12AB1234"
                         (mkStore [parked_row "MH12AB1234" 1000 "A1"] ∅ 0)))
           [calm 1030000000; calm 1045000000] 0
           (parked_row "MH12AB1234" 1000 "A1") 1000000000%Z);
    vm_compute; reflexivity.
Defined.

Example quote_after_61_seconds :
  (log_exit (calm 1061000000) "MH12AB1234"
     (mkStore [parked_row "MH12AB1234" 1000 "A1"] ∅ 0)).1 =
  Ret (VDict (mkExitInfo "MH12AB1234" (Stamp 1000) (Stamp 1061) 2 2
                "IMAGES/upi_qr_MH12AB1234.png" "A1")).
Proof. vm_compute. reflexivity. Qed.

End claim_quote.

(** ** C4: payment confirmation *)

Section claim_confirm.

Lemma confirm_not_parked env p st :
  ¬ Exists (parked p) (table st) →
  (confirm_payment_and_exit env p st).1 ≠ Ret true ∧
  table (confirm_payment_and_exit env p st).2 = table st ∧
  ((wait_for_db_unlock env st).1 = Ret true → fails env AtSelect = false →
   (confirm_payment_and_exit env p st).1 = Ret false).
Proof.
  intros Hno. apply select_latest_in_None in Hno.
  unfold confirm_payment_and_exit. wait_cases env st st1 W Ht Hi; simpl.
  - destruct (fails env AtSelect); simpl; [by auto |].
    rewrite Ht, Hno. simpl. by auto.
  - split; [done |]. split; [done |]. intros [=].
  - split; [done |]. split; [done |]. intros [=].
Qed.

(** The first UPDATE: the exit time is still empty. *)
Lemma confirm_ok_open env p st i r e :
  (wait_for_db_unlock env st).1 = Ret true →
  fails env AtSelect = false → fails env AtWrite = false →
  select_latest_in p (table st) = Some (i, r) →
  truthy_time (exit_time r) = false → entry_time r = Stamp e →
  (confirm_payment_and_exit env p st).1 = Ret true ∧
  table (confirm_payment_and_exit env p st).2 =
  alter (close_with (strftime (now env))
           (Z.max 1 (ceil_minutes (now env - e * 1000000)))
           (Z.max 1 (ceil_minutes (now env - e * 1000000)) * RATE_PER_MIN))
        i (table st).
Proof.
  intros Hw Hsel Hwr Hrow Hx He. unfold confirm_payment_and_exit.
  wait_cases env st st1 W Ht Hi; simpl in Hw; try discriminate Hw.
  rewrite Hsel, Ht, Hrow, Hx, He. simpl. rewrite Hwr. done.
Qed.

(** The second UPDATE: an exit time is already there. *)
Lemma confirm_ok_forced env p st i r :
  (wait_for_db_unlock env st).1 = Ret true →
  fails env AtSelect = false → fails env AtWrite = false →
  select_latest_in p (table st) = Some (i, r) →
  truthy_time (exit_time r) = true →
  (confirm_payment_and_exit env p st).1 = Ret true ∧
  table (confirm_payment_and_exit env p st).2 = alter force_out i (table st).
Proof.
  intros Hw Hsel Hwr Hrow Hx. unfold confirm_payment_and_exit.
  wait_cases env st st1 W Ht Hi; simpl in Hw; try discriminate Hw.
  rewrite Hsel, Ht, Hrow, Hx. simpl. rewrite Hwr. done.
Qed.

(** Rewriting one row that did not match into one that does adds one to
    the number of matching rows. *)
Lemma length_filter_alter {A} (P : A → Prop) `{!∀ x, Decision (P x)}
    (f : A → A) (l : list A) (i : nat) (x : A) :
  l !! i = Some x → ¬ P x → P (f x) →
  length (filter P (alter f i l)) = S (length (filter P l)).
Proof.
  revert i. induction l as [| y l IH]; intros i Hi Hx Hfx; [done |].
  destruct i as [| i]; simpl in Hi.
  - injection Hi as ->. simpl.
    rewrite filter_cons_True, (filter_cons_False _ x) by done. done.
  - change (alter f (S i) (y :: l)) with (y :: alter f i l).
    rewrite !filter_cons. destruct (decide (P y)); simpl;
      by rewrite (IH i).
Qed.

(** After a successful confirmation, under the one-IN-row-per-plate
    invariant, the plate has no IN row left. *)
Lemma confirm_leaves_no_parked env p st st1 :
  confirm_payment_and_exit env p st = (Ret true, st1) →
  one_in_per_plate (table st) →
  ¬ Exists (parked p) (table st1) ∧
  length (filter (closed p) (table st1)) =
  S (length (filter (closed p) (table st))).
Proof.
  intros H Hone.
  apply confirm_cases in H as [_ [(_ & i & r & Hsel & Hupd) | [Hne _]]];
    [| done].
  apply select_latest_in_Some in Hsel as (Hi & [Hp Hin] & _).
  assert (∃ f, table st1 = alter f i (table st) ∧ plate (f r) = plate r ∧
               status (f r) = OUT) as (f & -> & Hfp & Hfo).
  { destruct Hupd as [(_ & e & _ & ->) | (_ & ->)]; eexists; by split. }
  split.
  - intros Hex. apply Exists_exists in Hex as (r2 & Hr2 & [Hp2 Hin2]).
    apply list_elem_of_lookup in Hr2 as [j Hj].
    rewrite list_lookup_alter in Hj. destruct (decide (i = j)) as [<- | Hij].
    + rewrite Hi in Hj. simpl in Hj. injection Hj as <-. congruence.
    + apply Hij. apply (Hone i j r r2); congruence.
  - apply (length_filter_alter _ _ _ _ r); [done | |].
    + intros [_ Hout]. congruence.
    + split; congruence.
Qed.

(** The explicit form of an UPDATE of one row. *)
Lemma alter_as_insert {A} (f : A → A) (l : list A) (i : nat) (x : A) :
  l !! i = Some x → alter f i l = <[i := f x]> l.
Proof.
  intros Hi. rewrite list_insert_alter. apply list_alter_ext; [| done].
  intros y Hy. congruence.
Qed.

(** With an empty exit time and an entry time that [strptime] rejects the
    confirmation ends in its [except] branch. *)
Lemma confirm_unparsed env p st i r :
  select_latest_in p (table st) = Some (i, r) →
  truthy_time (exit_time r) = false → strptime (entry_time r) = None →
  (confirm_payment_and_exit env p st).1 ≠ Ret true ∧
  table (confirm_payment_and_exit env p st).2 = table st ∧
  ((wait_for_db_unlock env st).1 = Ret true → fails env AtSelect = false →
   (confirm_payment_and_exit env p st).1 = Ret false).
Proof.
  intros Hrow Hx Hparse. unfold confirm_payment_and_exit.
  wait_cases env st st1 W Ht Hi; simpl.
  - destruct (fails env AtSelect); simpl; [by auto |].
    rewrite Ht, Hrow, Hx, Hparse. simpl. by auto.
  - split; [done |]. split; [done |]. intros [=].
  - split; [done |]. split; [done |]. intros [=].
Qed.

(** C4. An open stay whose entry time is not in the format of
    [log_entry] but is an ISO text: [log_exit], which falls back on
    [fromisoformat], quotes it, whereas [confirm_payment_and_exit], which
    has [strptime] alone, never closes it.  In no environment does the
    confirmation succeed; the table is as it was, the row still the latest
    IN row of the plate, and with the store answering the result is
    [False]. *)
Theorem confirm_payment_and_exit_rejects_iso_entry
    (p : string) (st : Store) (i : nat) (r : Row) (us : Z) :
  select_latest_in p (table st) = Some (i, r) →
  entry_time r = Iso us → truthy_time (exit_time r) = false →
  (∀ env, (wait_for_db_unlock env st).1 = Ret true →
     fails env AtSelect = false → fails env AtQr = false →
     ∃ d, (log_exit env p st).1 = Ret (VDict d) ∧
       q_entry_time d = Iso us ∧
       q_duration_min d = Z.max 1 (ceil_minutes (now env - us)) ∧
       q_amount d = (q_duration_min d * RATE_PER_MIN)%Z) ∧
  (∀ env,
     (confirm_payment_and_exit env p st).1 ≠ Ret true ∧
     table (confirm_payment_and_exit env p st).2 = table st ∧
     select_latest_in p (table (confirm_payment_and_exit env p st).2) =
       Some (i, r) ∧
     ((wait_for_db_unlock env st).1 = Ret true → fails env AtSelect = false →
      (confirm_payment_and_exit env p st).1 = Ret false)).
Proof.
  intros Hrow He Hx. split.
  - intros env Hw Hsel Hqr. eexists. split.
    + apply (log_exit_ok env p st i r us); try done.
      unfold entry_instant. by rewrite He.
    + by rewrite He.
  - intros env.
    destruct (confirm_unparsed env p st i r Hrow Hx) as (Hres & Htab & Hfalse);
      [by rewrite He |].
    by rewrite Htab.
Qed.

Lemma confirm_payment_and_exit_rejects_iso_entry_witness :
  let r := mkRow "MH12AB1234" (Iso 1000500000) Null None None IN (Some "A1") in
  let st := mkStore [r] ∅ 0 in
  (∀ env, (wait_for_db_unlock env st).1 = Ret true →
     fails env AtSelect = false → fails env AtQr = false →
     ∃ d, (log_exit env "MH12AB1234" st).1 = Ret (VDict d) ∧
       q_entry_time d = Iso 1000500000 ∧
       q_duration_min d = Z.max 1 (ceil_minutes (now env - 1000500000)) ∧
       q_amount d = (q_duration_min d * RATE_PER_MIN)%Z) ∧
  (∀ env,
     (confirm_payment_and_exit env "MH12AB1234" st).1 ≠ Ret true ∧
     table (confirm_payment_and_exit env "MH12AB1234" st).2 = table st ∧
     select_latest_in "MH12AB1234"
       (table (confirm_payment_and_exit env "MH12AB1234" st).2) = Some (0, r) ∧
     ((wait_for_db_unlock env st).1 = Ret true → fails env AtSelect = false →
      (confirm_payment_and_exit env "MH12AB1234" st).1 = Ret false)).
Proof.
  intros r st.
  apply (confirm_payment_and_exit_rejects_iso_entry "MH12AB1234" st 0 r
           1000500000); reflexivity.
Defined.

(** The entry was written with microseconds: quoted after 90 seconds, never
    closed. *)
Example iso_entry_quoted_not_closed :
  let st := mkStore [mkRow "MH12AB1234" (Iso 1000500000) Null None None IN
                       (Some "A1")] ∅ 0 in
  (log_exit (calm 1090500000) "MH12AB1234" st).1 =
    Ret (VDict (mkExitInfo "MH12AB1234" (Iso 1000500000) (Stamp 1090) 2 2
                  "IMAGES/upi_qr_MH12AB1234.png" "A1")) ∧
  confirm_payment_and_exit (calm 1090500000) "MH12AB1234" st = (Ret false, st).
Proof. vm_compute. done. Qed.

Example confirm_after_90_seconds :
  confirm_payment_and_exit (calm 1090000000) "MH12AB1234"
    (mkStore [parked_row "MH12AB1234" 1000 "A1"] ∅ 0) =
  (Ret true,
   mkStore [mkRow "MH12AB1234" (Stamp 1000) (Stamp 1090) (Some 2%Z) (Some 2%Z)
              OUT (Some "A1")] ∅ 0).
Proof. vm_compute. reflexivity. Qed.

End claim_confirm.

(** ** C10: IN rows without a slot *)

Section claim_null_slot.

Lemma occupied_of_skip (t1 t2 : list Row) (r : Row) :
  status r = IN → slot r = None →
  occupied_of (t1 ++ r :: t2) = occupied_of (t1 ++ t2).
Proof.
  intros Hin Hs. unfold occupied_of.
  rewrite !filter_app, filter_cons_True by done.
  rewrite !omap_app. simpl. by rewrite Hs.
Qed.

Lemma current_slots_of_skip (t1 t2 : list Row) (r : Row) :
  status r = IN → slot r = None →
  current_slots_of (t1 ++ r :: t2) = current_slots_of (t1 ++ t2).
Proof.
  intros Hin Hs. unfold current_slots_of.
  rewrite !filter_app, filter_cons_True by done.
  rewrite !foldl_app. simpl. unfold slots_step at 2. by rewrite Hs.
Qed.

(** A plate shown in the occupancy map comes from an IN row that carries
    the label. *)
Lemma foldl_slots_step_origin (t rows : list Row)
    (m : gmap string (option string)) (l q : string) :
  (∀ r, r ∈ rows → r ∈ t ∧ status r = IN) →
  (m !! l = Some (Some q) →
   ∃ r, r ∈ t ∧ status r = IN ∧ slot r = Some l ∧ plate r = q) →
  foldl slots_step m rows !! l = Some (Some q) →
  ∃ r, r ∈ t ∧ status r = IN ∧ slot r = Some l ∧ plate r = q.
Proof.
  revert m. induction rows as [| x rows IH]; intros m Hrows Hm; simpl;
    [done |].
  apply IH.
  - intros r Hr. apply Hrows. by right.
  - unfold slots_step. destruct (slot x) as [s |] eqn:Hs; [| done].
    destruct (decide (s ∈ dom m)); [| done].
    intros Hl. apply lookup_insert_Some in Hl as [[-> Hq] | [_ Hl]]; [| auto].
    injection Hq as <-. exists x.
    destruct (Hrows x) as [Hx Hin]; [left |]. done.
Qed.

Lemma empty_slots_None (l q : string) : empty_slots !! l ≠ Some (Some q).
Proof.
  unfold empty_slots. intros H. apply elem_of_list_to_map_2 in H.
  apply list_elem_of_fmap in H as (label & [= _ Hq] & _).
Qed.

Lemma current_slots_of_origin (t : list Row) (l q : string) :
  current_slots_of t !! l = Some (Some q) →
  ∃ r, r ∈ t ∧ status r = IN ∧ slot r = Some l ∧ plate r = q.
Proof.
  unfold current_slots_of. apply foldl_slots_step_origin.
  - intros r Hr. apply list_elem_of_filter in Hr as [? ?]. done.
  - intros H. by apply empty_slots_None in H.
Qed.

(** With [k] of the labels taken, in order, the allocator hands out the
    next one. *)
Lemma first_free_after_prefix (k : nat) :
  k < 15 →
  first_free (occupied_of (parked_row "KA01AB1234" 0 <$> take k SLOT_LABELS))
    SLOT_LABELS = SLOT_LABELS !! k.
Proof.
  intros Hk. do 15 (destruct k as [| k]; [vm_compute; reflexivity |]). lia.
Qed.

(** C10. An IN row whose slot is NULL takes no part in slot accounting:
    the occupied set, the allocator's answer and the occupancy map are
    what they would be without the row, so that every label of the fixed
    set can still be handed out with the row present, and (one IN row per
    plate) the map shows the row's plate under no label; yet [log_entry]
    for that plate inserts nothing and, the store answering, returns
    [already_in]. *)
Theorem null_slot_row_invisible (t1 t2 : list Row) (r : Row) :
  status r = IN → slot r = None →
  occupied_of (t1 ++ r :: t2) = occupied_of (t1 ++ t2) ∧
  (∀ env st st0, table st = t1 ++ r :: t2 → table st0 = t1 ++ t2 →
     get_occupied_slots env st = get_occupied_slots env st0 ∧
     find_next_available_slot env st = find_next_available_slot env st0 ∧
     fetch_current_slots env st = fetch_current_slots env st0) ∧
  (∀ l, l ∈ SLOT_LABELS →
     ∃ t, r ∈ t ∧ first_free (occupied_of t) SLOT_LABELS = Some l) ∧
  (one_in_per_plate (t1 ++ r :: t2) →
   ∀ l, current_slots_of (t1 ++ r :: t2) !! l ≠ Some (Some (plate r))) ∧
  (∀ env st, table st = t1 ++ r :: t2 →
     (log_entry env (plate r) st).1 ≠ Ret "entry_logged" ∧
     table (log_entry env (plate r) st).2 = table st ∧
     ((wait_for_db_unlock env st).1 = Ret true → fails env AtSelect = false →
      (log_entry env (plate r) st).1 = Ret "already_in")).
Proof.
  intros Hin Hs. split; [by apply occupied_of_skip |].
  split; [| split; [| split]].
  - intros env st st0 Ht Ht0.
    unfold find_next_available_slot, get_occupied_slots, fetch_current_slots.
    rewrite Ht, Ht0, occupied_of_skip, current_slots_of_skip by done. done.
  - intros l Hl. apply list_elem_of_lookup in Hl as [k Hk].
    exists (r :: (parked_row "KA01AB1234" 0 <$> take k SLOT_LABELS)).
    split; [left |].
    change (r :: (parked_row "KA01AB1234" 0 <$> take k SLOT_LABELS))
      with ([] ++ r :: (parked_row "KA01AB1234" 0 <$> take k SLOT_LABELS)).
    rewrite occupied_of_skip by done.
    change ([] ++ (parked_row "KA01AB1234" 0 <$> take k SLOT_LABELS))
      with (parked_row "KA01AB1234" 0 <$> take k SLOT_LABELS).
    rewrite first_free_after_prefix; [done |].
    apply lookup_lt_Some in Hk. by rewrite SLOT_LABELS_length in Hk.
  - intros Hone l Hl.
    apply current_slots_of_origin in Hl as (r' & Hr' & Hin' & Hs' & Hp').
    apply list_elem_of_lookup in Hr' as [j Hj].
    assert ((t1 ++ r :: t2) !! length t1 = Some r) as Hr
      by apply list_lookup_middle, eq_refl.
    assert (j = length t1) as -> by (by apply (Hone j (length t1) r' r)).
    congruence.
  - intros env st Ht. apply log_entry_already_in. rewrite Ht.
    apply Exists_app. right. left. by split.
Qed.

Lemma null_slot_row_invisible_witness :
  let r := mkRow "DL8CAF5030" (Stamp 500) Null None None IN None in
  let t1 := [parked_row "MH12AB1234" 1000 "A1"] in
  occupied_of (t1 ++ r :: []) = occupied_of (t1 ++ []) ∧
  (∀ env st st0, table st = t1 ++ r :: [] → table st0 = t1 ++ [] →
     get_occupied_slots env st = get_occupied_slots env st0 ∧
     find_next_available_slot env st = find_next_available_slot env st0 ∧
     fetch_current_slots env st = fetch_current_slots env st0) ∧
  (∀ l, l ∈ SLOT_LABELS →
     ∃ t, r ∈ t ∧ first_free (occupied_of t) SLOT_LABELS = Some l) ∧
  (one_in_per_plate (t1 ++ r :: []) →
   ∀ l, current_slots_of (t1 ++ r :: []) !! l ≠ Some (Some (plate r))) ∧
  (∀ env st, table st = t1 ++ r :: [] →
     (log_entry env (plate r) st).1 ≠ Ret "entry_logged" ∧
     table (log_entry env (plate r) st).2 = table st ∧
     ((wait_for_db_unlock env st).1 = Ret true → fails env AtSelect = false →
      (log_entry env (plate r) st).1 = Ret "already_in")).
Proof.
  intros r t1. apply (null_slot_row_invisible t1 [] r); reflexivity.
Defined.

Example null_slot_row_scenario :
  let st := mkStore [mkRow "DL8CAF5030" (Stamp 500) Null None None IN None] ∅ 0 in
  find_next_available_slot (calm 0) st = Ret (Some "A1") ∧
  fetch_current_slots (calm 0) st = Ret empty_slots ∧
  log_entry (calm 600000000) "DL8CAF5030" st = (Ret "already_in", st).
Proof. vm_compute. repeat split; reflexivity. Qed.

End claim_null_slot.

(** ** C8: the pending-exit variable *)

Section claim_pending.
Import app.

Lemma broadcast_logs_update_pending env a :
  pending_exit_plate (broadcast_logs_update env a).2 = pending_exit_plate a.
Proof.
  unfold broadcast_logs_update. by destruct (fetch_all_logs env (store a)).
Qed.

Lemma broadcast_slots_update_pending env a :
  pending_exit_plate (broadcast_slots_update env a) = pending_exit_plate a.
Proof.
  unfold broadcast_slots_update. by destruct (fetch_current_slots env (store a)).
Qed.

(** What [api_confirm_exit] does to the variable: cleared when the
    confirmation succeeded and the variable holds the confirmed plate, left
    alone otherwise. *)
Lemma api_confirm_exit_pending env p a :
  p ≠ "" →
  pending_exit_plate (api_confirm_exit env (Some p) a).2 =
  match (confirm_payment_and_exit env p (store a)).1 with
  | Ret true =>
      if bool_decide (pending_exit_plate a = Some p) then None
      else pending_exit_plate a
  | _ => pending_exit_plate a
  end.
Proof.
  intros Hp. unfold api_confirm_exit.
  apply truthy_Some in Hp. rewrite Hp. simpl.
  destruct (confirm_payment_and_exit env p (store a)) as [[[|] |] st1];
    simpl; try done.
  match goal with
  | |- context [broadcast_logs_update env ?x] =>
      pose proof (broadcast_logs_update_pending env x) as Hl;
      destruct (broadcast_logs_update env x) as [[u |] a1]
  end; simpl in *.
  - rewrite broadcast_slots_update_pending, Hl. by case_bool_decide.
  - rewrite Hl. by case_bool_decide.
Qed.

(** C8. The variable holds at most one plate ([option string]):
    [set_pending_exit] overwrites whatever it held; [api_confirm_exit]
    clears it only when the confirmation succeeded and the variable holds
    the confirmed plate.  So after setting "A" then "B" the variable reads
    "B", and a confirmation for "A", whatever its outcome, leaves "B". *)
Theorem pending_exit_single_slot (env : Env) (a : App) :
  (∀ p, pending_exit_plate (set_pending_exit p a).2 = Some p) ∧
  (∀ plate, pending_exit_plate a ≠ plate →
     pending_exit_plate (api_confirm_exit env plate a).2 = pending_exit_plate a) ∧
  (∀ p, (confirm_payment_and_exit env p (store a)).1 ≠ Ret true →
     pending_exit_plate (api_confirm_exit env (Some p) a).2 =
     pending_exit_plate a) ∧
  (∀ p, p ≠ "" → pending_exit_plate a = Some p →
     (confirm_payment_and_exit env p (store a)).1 = Ret true →
     pending_exit_plate (api_confirm_exit env (Some p) a).2 = None) ∧
  (let a2 := (set_pending_exit "B" (set_pending_exit "A" a).2).2 in
   (get_pending_exit a2).1 = mkResponse 200 (PendingIs (Some "B")) ∧
   pending_exit_plate (get_pending_exit a2).2 = Some "B" ∧
   pending_exit_plate (api_confirm_exit env (Some "A") a2).2 = Some "B").
Proof.
  split; [done |]. split; [| split; [| split]].
  - intros [p |] Hne.
    + destruct (decide (p = "")) as [-> | Hp]; [done |].
      rewrite api_confirm_exit_pending by done.
      destruct (confirm_payment_and_exit env p (store a)).1 as [[|] |];
        try done.
      by rewrite bool_decide_eq_false_2.
    + done.
  - intros p Hfail. destruct (decide (p = "")) as [-> | Hp]; [done |].
    rewrite api_confirm_exit_pending by done.
    by destruct (confirm_payment_and_exit env p (store a)).1 as [[|] |].
  - intros p Hp Hpend Hok. rewrite api_confirm_exit_pending by done.
    rewrite Hok. by rewrite bool_decide_eq_true_2.
  - split; [done |]. split; [done |].
    rewrite api_confirm_exit_pending by done. simpl.
    by destruct (confirm_payment_and_exit env "A" (store a)).1 as [[|] |].
Qed.

Lemma pending_exit_single_slot_witness :
  let a := mkApp (mkStore [parked_row "A" 1000 "A1"; parked_row "B" 1010 "A2"]
                    ∅ 0) None [] in
  let a2 := (set_pending_exit "B" (set_pending_exit "A" a).2).2 in
  (get_pending_exit a2).1 = mkResponse 200 (PendingIs (Some "B")) ∧
  pending_exit_plate (get_pending_exit a2).2 = Some "B" ∧
  pending_exit_plate (api_confirm_exit (calm 1090000000) (Some "A") a2).2 =
  Some "B".
Proof.
  intros a a2.
  apply (proj2 (proj2 (proj2 (proj2
           (pending_exit_single_slot (calm 1090000000) a))))).
Defined.

End claim_pending.

(** ** C9: a busy store *)

Section claim_store_busy.

(** Once the first probe has passed, an operation neither sleeps nor
    returns [db_locked]. *)
Lemma probe_passed_no_retry env p st :
  probe env 0 = Free →
  ((log_entry env p st).1 ≠ Ret "db_locked" ∧
   slept (log_entry env p st).2 = slept st) ∧
  ((log_exit env p st).1 ≠ Ret (VStr "db_locked") ∧
   slept (log_exit env p st).2 = slept st) ∧
  slept (confirm_payment_and_exit env p st).2 = slept st.
Proof.
  intros Hfree.
  unfold log_entry, log_exit, confirm_payment_and_exit,
    find_next_available_slot, get_occupied_slots, generate_upi_qr.
  rewrite (wait_free env st Hfree).
  repeat split; repeat (case_match; simpl in *; simplify_eq); done.
Qed.

(** C9. With the store locked by another connection, no operation waits
    for it or tries again: the probe passes at once, the operation proper
    is run once, its first statement raises, and the call ends with
    [db_error] ([False] for the confirmation) - not with [db_locked] -
    having slept for no time and left the store as it was.  More
    generally, once the first probe has passed nothing is retried and
    [db_locked] is not returned, whatever fails afterwards. *)
Theorem locked_store_not_retried (env : Env) (p : string) (st : Store) :
  locked_by_another env →
  (log_entry env p st = (Ret "db_error", st) ∧
   log_exit env p st = (Ret (VStr "db_error"), st) ∧
   confirm_payment_and_exit env p st = (Ret false, st)) ∧
  (∀ env', probe env' 0 = Free →
     ((log_entry env' p st).1 ≠ Ret "db_locked" ∧
      slept (log_entry env' p st).2 = slept st) ∧
     ((log_exit env' p st).1 ≠ Ret (VStr "db_locked") ∧
      slept (log_exit env' p st).2 = slept st) ∧
     slept (confirm_payment_and_exit env' p st).2 = slept st).
Proof.
  intros [Hfree Hsel]. split.
  - unfold log_entry, log_exit, confirm_payment_and_exit.
    by rewrite (wait_free env st (Hfree 0)), Hsel.
  - intros env'. apply probe_passed_no_retry.
Qed.

Lemma locked_store_not_retried_witness :
  log_entry (held_lock 0) "MH12AB1234" fresh = (Ret "db_error", fresh) ∧
  log_exit (held_lock 0) "MH12AB1234" fresh = (Ret (VStr "db_error"), fresh) ∧
  confirm_payment_and_exit (held_lock 0) "MH12AB1234" fresh =
    (Ret false, fresh).
Proof.
  apply (locked_store_not_retried (held_lock 0) "MH12AB1234" fresh).
  split; [intros k; reflexivity | reflexivity].
Defined.

(** A parked car at the exit while another connection holds the lock. *)
Example locked_store_at_the_exit :
  let st := mkStore [parked_row "MH12AB1234" 1000 "A1"] ∅ 0 in
  log_exit (held_lock 1090000000) "MH12AB1234" st = (Ret (VStr "db_error"), st) ∧
  confirm_payment_and_exit (held_lock 1090000000) "MH12AB1234" st =
    (Ret false, st).
Proof. vm_compute. done. Qed.

End claim_store_busy.

(** ** C1: who asks for the exit gate *)

Section claim_gate.
Import app.

#[local] Arguments gate_opens : simpl never.

Lemma gate_opens_emit q evs e :
  gate_opens q (evs ++ [e]) =
  gate_opens q evs + (if is_gate_open q e then 1 else 0).
Proof.
  unfold gate_opens. rewrite List.filter_app, length_app. simpl.
  by destruct (is_gate_open q e).
Qed.

Lemma broadcast_logs_update_gate q env a :
  gate_opens q (emitted (broadcast_logs_update env a).2) =
  gate_opens q (emitted a).
Proof.
  unfold broadcast_logs_update. destruct (fetch_all_logs env (store a)); simpl;
    [| done].
  rewrite gate_opens_emit. simpl. lia.
Qed.

Lemma broadcast_slots_update_gate q env a :
  gate_opens q (emitted (broadcast_slots_update env a)) =
  gate_opens q (emitted a).
Proof.
  unfold broadcast_slots_update.
  destruct (fetch_current_slots env (store a)); simpl; [| done].
  rewrite gate_opens_emit. simpl. lia.
Qed.

(** [api_confirm_exit] asks for the gate once when the confirmation
    succeeded, and not at all otherwise. *)
Lemma api_confirm_exit_gate q env p a :
  p ≠ "" →
  gate_opens q (emitted (api_confirm_exit env (Some p) a).2) =
  gate_opens q (emitted a) +
  match (confirm_payment_and_exit env p (store a)).1 with
  | Ret true => if String.eqb p q then 1 else 0
  | _ => 0
  end.
Proof.
  intros Hp. unfold api_confirm_exit.
  apply truthy_Some in Hp. rewrite Hp. simpl.
  destruct (confirm_payment_and_exit env p (store a)) as [[[|] |] st1];
    simpl; try lia.
  match goal with
  | |- context [broadcast_logs_update env ?x] =>
      pose proof (broadcast_logs_update_gate q env x) as Hl;
      destruct (broadcast_logs_update env x) as [[u |] a1]
  end; simpl in Hl |- *.
  - rewrite broadcast_slots_update_gate, Hl, !gate_opens_emit. simpl.
    destruct (bool_decide (pending_exit_plate a = Some p)); simpl; lia.
  - rewrite Hl, !gate_opens_emit. simpl.
    destruct (bool_decide (pending_exit_plate a = Some p)); simpl; lia.
Qed.

(** No other request adds an [open_exit_gate] event. *)
Lemma handle_gate_opens TOKEN env rq a q :
  gate_opens q (emitted (handle TOKEN env rq a).2) =
  gate_opens q (emitted a) +
  match rq with
  | ApiConfirmExit (Some p) =>
      match (confirm_payment_and_exit env p (store a)).1 with
      | Ret true => if negb (String.eqb p "") && String.eqb p q then 1 else 0
      | _ => 0
      end
  | _ => 0
  end.
Proof.
  destruct rq as [token search | p | p | [p |] | data | p |]; simpl.
  - unfold sms_webhook. destruct (negb _); simpl; [lia |].
    destruct search as [[amount p] |]; simpl; [| lia].
    destruct (confirm_payment_and_exit env p (store a)) as [[[|] |] st1];
      simpl; lia.
  - unfold exit_page.
    destruct (log_exit env p (store a)) as [[[| |] |] st1]; simpl; lia.
  - unfold api_exit_info.
    destruct (log_exit env p (store a)) as [[[| |] |] st1]; simpl; lia.
  - destruct (String.eqb_spec p "") as [-> | Hp].
    + simpl. destruct (confirm_payment_and_exit env "" (store a)).1 as [[|] |];
        lia.
    + rewrite api_confirm_exit_gate by done. simpl. done.
  - simpl. lia.
  - unfold plate_detected.
    destruct (negb (truthy (d_plate data)) || negb (truthy (d_status data)));
      simpl; [lia |].
    destruct (String.eqb _ "entry_logged"); simpl.
    + match goal with
      | |- context [broadcast_logs_update env ?x] =>
          pose proof (broadcast_logs_update_gate q env x) as Hl;
          destruct (broadcast_logs_update env x) as [[u |] a1]
      end; simpl in Hl |- *.
      * rewrite broadcast_slots_update_gate, Hl, gate_opens_emit. simpl. lia.
      * rewrite Hl, gate_opens_emit. simpl. lia.
    + rewrite gate_opens_emit. simpl. lia.
  - rewrite gate_opens_emit. simpl. lia.
  - lia.
Qed.

(** C1, where the code departs from it.  A payment confirmed through
    [/sms_webhook] closes the stay exactly as [/api/confirm_exit] does and
    answers "Payment confirmed, exit allowed", but broadcasts nothing: no
    [open_exit_gate] for the plate, where [/api/confirm_exit] on the same
    state broadcasts exactly one. *)
Theorem sms_webhook_confirms_without_gate
    (TOKEN : string) (env : Env) (amount p : string) (a : App) :
  p ≠ "" →
  (confirm_payment_and_exit env p (store a)).1 = Ret true →
  (sms_webhook TOKEN env (Some TOKEN) (Some (amount, p)) a).1 =
    mkResponse 200 (Text "Payment confirmed, exit allowed") ∧
  store (sms_webhook TOKEN env (Some TOKEN) (Some (amount, p)) a).2 =
    (confirm_payment_and_exit env p (store a)).2 ∧
  store (api_confirm_exit env (Some p) a).2 =
    (confirm_payment_and_exit env p (store a)).2 ∧
  emitted (sms_webhook TOKEN env (Some TOKEN) (Some (amount, p)) a).2 =
    emitted a ∧
  gate_opens p (emitted (sms_webhook TOKEN env (Some TOKEN) (Some (amount, p)) a).2)
    = gate_opens p (emitted a) ∧
  gate_opens p (emitted (api_confirm_exit env (Some p) a).2) =
    S (gate_opens p (emitted a)).
Proof.
  intros Hp Hok.
  assert (gate_opens p (emitted (api_confirm_exit env (Some p) a).2) =
          S (gate_opens p (emitted a))) as Hapi.
  { rewrite api_confirm_exit_gate by done. rewrite Hok, String.eqb_refl. lia. }
  assert (store (api_confirm_exit env (Some p) a).2 =
          (confirm_payment_and_exit env p (store a)).2) as Hstore.
  { unfold api_confirm_exit. apply truthy_Some in Hp. rewrite Hp. simpl.
    destruct (confirm_payment_and_exit env p (store a)) as [[[|] |] st1];
      simpl in Hok |- *; try discriminate Hok.
    unfold broadcast_logs_update, broadcast_slots_update.
    destruct (bool_decide (pending_exit_plate a = Some p)); simpl;
      destruct (fails env AtLogs) eqn:Hl; unfold fetch_all_logs; simpl;
      rewrite Hl; simpl; try done;
      unfold fetch_current_slots; simpl; by destruct (fails env AtSlots). }
  unfold sms_webhook. rewrite bool_decide_eq_true_2 by done. simpl.
  destruct (confirm_payment_and_exit env p (store a)) as [[[|] |] st1];
    simpl in Hok |- *; try discriminate Hok.
  done.
Qed.

Lemma sms_webhook_confirms_without_gate_witness :
  let a := mkApp (mkStore [parked_row "MH12AB1234" 1000 "A1"] ∅ 0)
             (Some "MH12AB1234") [] in
  let env := calm 3400000000 in
  (sms_webhook "your-token-here" env (Some "your-token-here")
     (Some ("40.00", "MH12AB1234")) a).1 =
    mkResponse 200 (Text "Payment confirmed, exit allowed") ∧
  store (sms_webhook "your-token-here" env (Some "your-token-here")
           (Some ("40.00", "MH12AB1234")) a).2 =
    (confirm_payment_and_exit env "MH12AB1234" (store a)).2 ∧
  store (api_confirm_exit env (Some "MH12AB1234") a).2 =
    (confirm_payment_and_exit env "MH12AB1234" (store a)).2 ∧
  emitted (sms_webhook "your-token-here" env (Some "your-token-here")
             (Some ("40.00", "MH12AB1234")) a).2 = emitted a ∧
  gate_opens "MH12AB1234"
    (emitted (sms_webhook "your-token-here" env (Some "your-token-here")
                (Some ("40.00", "MH12AB1234")) a).2)
    = gate_opens "MH12AB1234" (emitted a) ∧
  gate_opens "MH12AB1234"
    (emitted (api_confirm_exit env (Some "MH12AB1234") a).2) =
    S (gate_opens "MH12AB1234" (emitted a)).
Proof.
  intros a env.
  apply (sms_webhook_confirms_without_gate "your-token-here" env "40.00"
           "MH12AB1234" a).
  - discriminate.
  - vm_compute. reflexivity.
Defined.

(** The same request, evaluated: the row is OUT with 40 minutes billed,
    the pending plate is still set, and no event has left the process. *)
Example sms_webhook_scenario :
  sms_webhook "your-token-here" (calm 3400000000) (Some "your-token-here")
    (Some ("40.00", "MH12AB1234"))
    (mkApp (mkStore [parked_row "MH12AB1234" 1000 "A1"] ∅ 0)
       (Some "MH12AB1234") []) =
  (mkResponse 200 (Text "Payment confirmed, exit allowed"),
   mkApp (mkStore [mkRow "MH12AB1234" (Stamp 1000) (Stamp 3400) (Some 40%Z)
                     (Some 40%Z) OUT (Some "A1")] ∅ 0)
     (Some "MH12AB1234") []).
Proof. vm_compute. reflexivity. Qed.

(** On the hardware side, the subscriber turns one [open_exit_gate] event
    into OPEN_EXIT, three seconds of dwell, CLOSE_EXIT. *)
Example on_open_exit_gate_actuates :
  nesm._on_open_exit_gate (λ _, true)
    (nesm.mkNesm (Some (arduino_handler.mkArduino true true [])) 0) =
  nesm.mkNesm
    (Some (arduino_handler.mkArduino true true ["OPEN_EXIT"; "CLOSE_EXIT"]))
    3000.
Proof. reflexivity. Qed.

End claim_gate.

(** * Further properties of the code *)

(** ** db_manager.py *)

Section probe_loop.

Lemma wait_loop_stops env w a n st k :
  k < n → (∀ j, j < k → probe env (a + j) = Locked) →
  probe env (a + k) ≠ Locked →
  wait_loop env w a n st =
  (match probe env (a + k) with Free => Ret true | _ => Raised end,
   mkStore (table st) (images st) (slept st + Z.of_nat k * w)%Z).
Proof.
  revert a n st. induction k as [| k IH]; intros a n st Hk Hl Hstop.
  - destruct n as [| n]; [lia |]. simpl. rewrite Nat.add_0_r in *.
    destruct (probe env a); [| done |]; destruct st; simpl; do 2 f_equal; lia.
  - destruct n as [| n]; [lia |]. simpl.
    pose proof (Hl 0) as H0. rewrite Nat.add_0_r in H0. rewrite H0 by lia.
    rewrite (IH (S a) n); simpl.
    + replace (S (a + k)) with (a + S k) by lia. do 2 f_equal. lia.
    + lia.
    + intros j Hj. replace (S (a + j)) with (a + S j) by lia. apply Hl. lia.
    + by replace (S (a + k)) with (a + S k) by lia.
Qed.

(** The first probe that is not locked, if there is one among [n]. *)
Lemma first_unlocked env a n :
  (∀ j, j < n → probe env (a + j) = Locked) ∨
  ∃ k, k < n ∧ probe env (a + k) ≠ Locked ∧
       (∀ j, j < k → probe env (a + j) = Locked).
Proof.
  induction n as [| n IH]; [left; intros; lia |].
  destruct IH as [Hall | (k & Hk & Hne & Hl)].
  - destruct (probe env (a + n)) eqn:Hp.
    + right. exists n. split; [lia |]. split; [by rewrite Hp | done].
    + left. intros j Hj. destruct (decide (j = n)) as [-> |]; [done |].
      apply Hall. lia.
    + right. exists n. split; [lia |]. split; [by rewrite Hp | done].
  - right. exists k. split; [lia |]. done.
Qed.

(** X1. [wait_for_db_unlock] is decided by the first of its five probes
    that is not "database is locked": [True] if that probe goes through,
    an exception if it fails otherwise, and [False] only when all five are
    locked; it has then slept 500 ms for each locked probe before. *)
Theorem wait_for_db_unlock_outcome (env : Env) (st : Store) (k : nat) :
  k ≤ 5 → (∀ j, j < k → probe env j = Locked) →
  (k < 5 → probe env k = Free →
     wait_for_db_unlock env st = (Ret true, after_sleeps k st)) ∧
  (k < 5 → probe env k = Broken →
     wait_for_db_unlock env st = (Raised, after_sleeps k st)) ∧
  (k = 5 → wait_for_db_unlock env st = (Ret false, after_sleeps k st)) ∧
  ((wait_for_db_unlock env st).1 = Ret false → ∀ j, j < 5 → probe env j = Locked).
Proof.
  intros Hk Hl. unfold wait_for_db_unlock, wait_for_db_unlock_with, after_sleeps.
  split; [| split; [| split]].
  - intros Hk5 Hp. rewrite (wait_loop_stops env 500 0 5 st k); simpl;
      rewrite ?Hp; try done; do 2 f_equal; lia.
  - intros Hk5 Hp. rewrite (wait_loop_stops env 500 0 5 st k); simpl;
      rewrite ?Hp; try done; do 2 f_equal; lia.
  - intros ->. rewrite wait_loop_all_locked by (intros j Hj; apply Hl; lia).
    do 2 f_equal; lia.
  - intros Hres. destruct (first_unlocked env 0 5) as [Hall | (m & Hm & Hne & Hlm)];
      [done |].
    rewrite (wait_loop_stops env 500 0 5 st m) in Hres by done.
    simpl in Hres, Hne. by destruct (probe env m).
Qed.

Lemma wait_for_db_unlock_outcome_witness :
  let env := mkEnv 0 (λ j, if decide (j < 2) then Locked else Free) (λ _, false) in
  (2 < 5 → probe env 2 = Free →
     wait_for_db_unlock env fresh = (Ret true, after_sleeps 2 fresh)) ∧
  (2 < 5 → probe env 2 = Broken →
     wait_for_db_unlock env fresh = (Raised, after_sleeps 2 fresh)) ∧
  (2 = 5 → wait_for_db_unlock env fresh = (Ret false, after_sleeps 2 fresh)) ∧
  ((wait_for_db_unlock env fresh).1 = Ret false →
   ∀ j, j < 5 → probe env j = Locked).
Proof.
  intros env. apply (wait_for_db_unlock_outcome env fresh 2).
  - lia.
  - intros j Hj. simpl. by rewrite decide_True.
Defined.

End probe_loop.

Section entry_and_quote.

(** X3. With the store answering, a plate that is not parked is turned
    away with [full], and nothing is written, when every label of A1..A15
    is held by an IN row; and [full] is returned in no other situation.  A
    parked plate gets [already_in] even in a full lot. *)
Theorem log_entry_full (env : Env) (p : string) (st : Store) :
  (wait_for_db_unlock env st).1 = Ret true →
  fails env AtSelect = false → fails env AtOccupied = false →
  ((¬ Exists (parked p) (table st) ∧
    (∀ l, l ∈ SLOT_LABELS →
       ∃ r, r ∈ table st ∧ status r = IN ∧ slot r = Some l)) ↔
   (log_entry env p st).1 = Ret "full") ∧
  ((log_entry env p st).1 = Ret "full" → table (log_entry env p st).2 = table st) ∧
  (Exists (parked p) (table st) → (log_entry env p st).1 = Ret "already_in").
Proof.
  intros Hw Hsel Hocc.
  assert (first_free (occupied_of (table st)) SLOT_LABELS = None ↔
          ∀ l, l ∈ SLOT_LABELS →
            ∃ r, r ∈ table st ∧ status r = IN ∧ slot r = Some l) as Hnone.
  { rewrite first_free_None. split.
    - intros H l Hl. apply H, elem_of_occupied_of in Hl as (r & ? & ? & ? & ?).
      eauto.
    - intros H l Hl. apply elem_of_occupied_of. destruct (H l Hl) as (r & ? & ? & ?).
      exists r. repeat split; try done. by apply SLOT_LABELS_nonempty. }
  unfold log_entry.
  wait_cases env st st1 W Ht Hi; simpl in Hw; try discriminate Hw.
  rewrite find_next_available_slot_eq, Hsel, Hocc, Ht.
  destruct (first_free (occupied_of (table st)) SLOT_LABELS) as [label |] eqn:Hf;
    destruct (decide (Exists (parked p) (table st))) as [Hex | Hno]; simpl.
  - split; [| done]. split; [intros [? _]; done | done].
  - split; [| split; [| done]].
    + split.
      * intros [_ Hall]. apply Hnone in Hall. discriminate Hall.
      * destruct (fails env AtWrite); simpl; done.
    + destruct (fails env AtWrite); simpl; done.
  - split; [| done]. split; [intros [? _]; done | done].
  - split; [| done]. split; [done |]. intros _. split; [done |].
    by apply Hnone.
Qed.

Lemma log_entry_full_witness :
  let st := enter_all fifteen_plates fresh in
  ((¬ Exists (parked "DL8CAF5030") (table st) ∧
    (∀ l, l ∈ SLOT_LABELS →
       ∃ r, r ∈ table st ∧ status r = IN ∧ slot r = Some l)) ↔
   (log_entry (calm 1000000000) "DL8CAF5030" st).1 = Ret "full") ∧
  ((log_entry (calm 1000000000) "DL8CAF5030" st).1 = Ret "full" →
   table (log_entry (calm 1000000000) "DL8CAF5030" st).2 = table st) ∧
  (Exists (parked "DL8CAF5030") (table st) →
   (log_entry (calm 1000000000) "DL8CAF5030" st).1 = Ret "already_in").
Proof.
  intros st.
  apply (log_entry_full (calm 1000000000) "DL8CAF5030" st); reflexivity.
Defined.

(** X4. [log_exit] touches at most one file, the QR image named after
    the plate.  When it returns a quote, that file holds the UPI request
    for the quoted amount and the quote names it.  When it returns
    [qr_error], the file is as it was if the failure came before the file
    was opened, and is left without a picture if [qr.save] raised, [open]
    having cut it to nothing.  With any other result no file has
    changed. *)
Theorem log_exit_writes_own_qr (env : Env) (p : string) (st : Store) :
  (∀ f, f ≠ qr_file p →
     images (log_exit env p st).2 !! f = images st !! f) ∧
  (∀ d, (log_exit env p st).1 = Ret (VDict d) →
     q_qr_path d = qr_file p ∧
     images (log_exit env p st).2 !! qr_file p = Some (upi_url (q_amount d) p)) ∧
  ((log_exit env p st).1 = Ret (VStr "qr_error") →
     fails env AtQr = true ∧
     images (log_exit env p st).2 =
     if fails env AtQrSave then <[qr_file p := ""]> (images st)
     else images st) ∧
  ((∀ d, (log_exit env p st).1 ≠ Ret (VDict d)) →
   (log_exit env p st).1 ≠ Ret (VStr "qr_error") →
   images (log_exit env p st).2 = images st).
Proof.
  unfold log_exit. wait_cases env st st1 W Ht Hi; simpl;
    [| by rewrite Hi | by rewrite Hi].
  destruct (fails env AtSelect); simpl; [by rewrite Hi |].
  destruct (select_latest_in p (table st1)) as [[i r] |]; simpl;
    [| by rewrite Hi].
  fold (entry_instant (entry_time r)).
  destruct (entry_instant (entry_time r)) as [t |]; simpl; [| by rewrite Hi].
  unfold generate_upi_qr. fold (qr_file p).
  destruct (fails env AtQr); simpl.
  - destruct (fails env AtQrSave); simpl; rewrite Hi;
      (split; [| split; [| split]]); try done.
    intros f Hf. by rewrite lookup_insert_ne.
  - split; [| split; [| split]].
    + intros f Hf. by rewrite lookup_insert_ne, Hi.
    + intros d [= <-]. simpl. split; [done |]. by rewrite lookup_insert_eq.
    + done.
    + intros Hne. by destruct (Hne _ eq_refl).
Qed.

Lemma log_exit_writes_own_qr_witness :
  let env := mkEnv 1061000000 (λ _, Free)
               (λ s, match s with AtQr | AtQrSave => true | _ => false end) in
  let st := mkStore [parked_row "MH12AB1234" 1000 "A1"]
              {[ qr_file "MH12AB1234" := upi_url 1 "MH12AB1234" ]} 0 in
  fails env AtQr = true ∧
  images (log_exit env "MH12AB1234" st).2 =
  if fails env AtQrSave then <[qr_file "MH12AB1234" := ""]> (images st)
  else images st.
Proof.
  intros env st.
  apply (proj1 (proj2 (proj2 (log_exit_writes_own_qr env "MH12AB1234" st)))).
  vm_compute. reflexivity.
Defined.

(** A quote whose picture cannot be saved leaves the file of an earlier
    quote without its picture. *)
Example qr_error_cuts_the_file :
  let env := mkEnv 1061000000 (λ _, Free)
               (λ s, match s with AtQr | AtQrSave => true | _ => false end) in
  let st := (log_exit (calm 1030000000) "MH12AB1234"
               (mkStore [parked_row "MH12AB1234" 1000 "A1"] ∅ 0)).2 in
  images st !! qr_file "MH12AB1234" = Some (upi_url 1 "MH12AB1234") ∧
  (log_exit env "MH12AB1234" st).1 = Ret (VStr "qr_error") ∧
  images (log_exit env "MH12AB1234" st).2 !! qr_file "MH12AB1234" = Some "".
Proof. vm_compute. done. Qed.

(** A later instant never gives a shorter billed duration. *)
Lemma duration_mono (a b : Z) :
  (a ≤ b)%Z → (Z.max 1 (ceil_minutes a) ≤ Z.max 1 (ceil_minutes b))%Z.
Proof.
  intros Hab. destruct (Z.le_gt_cases a 0) as [Hle | Hpos].
  - pose proof (ceil_minutes_nonpos a Hle). lia.
  - pose proof (ceil_minutes_mono_pos a b Hpos Hab). lia.
Qed.

(** X5. The amount written at confirmation is never below an amount
    quoted earlier for the same stay: a quote from [log_exit] at one
    instant and a confirmation at the same or a later instant, on the open
    stay of the plate, leave an OUT row whose duration and amount are at
    least the quoted ones. *)
Theorem confirmed_amount_covers_quote
    (env1 env2 : Env) (p : string) (st st1 st2 : Store) (d : ExitInfo)
    (i : nat) (r : Row) :
  log_exit env1 p st = (Ret (VDict d), st1) →
  confirm_payment_and_exit env2 p st1 = (Ret true, st2) →
  select_latest_in p (table st) = Some (i, r) →
  truthy_time (exit_time r) = false →
  (now env1 ≤ now env2)%Z →
  ∃ r' dur amt,
    table st2 !! i = Some r' ∧ status r' = OUT ∧
    duration_min r' = Some dur ∧ amount r' = Some amt ∧
    (q_duration_min d ≤ dur)%Z ∧ (q_amount d ≤ amt)%Z.
Proof.
  intros Hq Hc Hsel Hx Hnow.
  assert (table st1 = table st) as Ht1.
  { pose proof (log_exit_table env1 p st) as H. by rewrite Hq in H. }
  apply log_exit_quote in Hq as (i' & r0 & t & Hsel' & Hparse & ->).
  rewrite Hsel in Hsel'. injection Hsel' as <- <-.
  apply confirm_cases in Hc as [_ [(_ & i' & r' & Hsel' & Hupd) | [Hne _]]];
    [| done].
  rewrite Ht1, Hsel in Hsel'. injection Hsel' as <- <-.
  destruct Hupd as [(_ & e & He & ->) | (Hx' & _)]; [| congruence].
  apply select_latest_in_Some in Hsel as (Hi & _).
  unfold entry_instant in Hparse. rewrite He in Hparse. simpl in Hparse.
  injection Hparse as <-.
  eexists _, _, _. rewrite Ht1, list_lookup_alter_eq, Hi. simpl.
  repeat split; try done.
  - apply duration_mono. lia.
  - unfold RATE_PER_MIN.
    assert (Z.max 1 (ceil_minutes (now env1 - e * 1000000)) ≤
            Z.max 1 (ceil_minutes (now env2 - e * 1000000)))%Z
      by (apply duration_mono; lia).
    lia.
Qed.

Lemma confirmed_amount_covers_quote_witness :
  let st := mkStore [parked_row "MH12AB1234" 1000 "A1"] ∅ 0 in
  let st1 := (log_exit (calm 1061000000) "MH12AB1234" st).2 in
  let st2 := (confirm_payment_and_exit (calm 1200000000) "MH12AB1234" st1).2 in
  ∃ r' dur amt,
    table st2 !! 0 = Some r' ∧ status r' = OUT ∧
    duration_min r' = Some dur ∧ amount r' = Some amt ∧
    (2 ≤ dur)%Z ∧ (2 ≤ amt)%Z.
Proof.
  intros st st1 st2.
  apply (confirmed_amount_covers_quote (calm 1061000000) (calm 1200000000)
           "MH12AB1234" st st1 st2
           (mkExitInfo "MH12AB1234" (Stamp 1000) (Stamp 1061) 2 2
              "IMAGES/upi_qr_MH12AB1234.png" "A1")
           0 (parked_row "MH12AB1234" 1000 "A1"));
    vm_compute; try reflexivity. discriminate.
Defined.

End entry_and_quote.


Section confirmation.

(** X20. What [confirm_payment_and_exit] writes.  Without an IN row for
    the plate it does not succeed and changes nothing.  With the store
    answering it acts on the latest IN row of the plate.  If the exit time
    is empty and the entry time is in the format of [log_entry], the
    result is [True] and that row, and no other, is replaced by the row
    with the same plate, entry time and slot, with [now] cut to the second
    as exit time, with the duration [max(1, math.ceil(elapsed / 60))],
    with the amount duration times rate, and with status OUT.  If the
    exit time is empty and [strptime] rejects the entry time, the result
    is [False] and nothing changes.  If an exit time is there, the result
    is [True] and only the status of that row changes, to OUT.  After a
    successful call, under the one-IN-row-per-plate invariant, a second
    call for the plate does not succeed and changes nothing: the two calls
    together have closed exactly one row. *)
Theorem confirm_payment_and_exit_closes (env : Env) (p : string) (st : Store) :
  (¬ Exists (parked p) (table st) →
     (confirm_payment_and_exit env p st).1 ≠ Ret true ∧
     table (confirm_payment_and_exit env p st).2 = table st ∧
     ((wait_for_db_unlock env st).1 = Ret true → fails env AtSelect = false →
      (confirm_payment_and_exit env p st).1 = Ret false)) ∧
  (∀ i r,
     select_latest_in p (table st) = Some (i, r) →
     (wait_for_db_unlock env st).1 = Ret true →
     fails env AtSelect = false → fails env AtWrite = false →
     (truthy_time (exit_time r) = false → ∀ e, entry_time r = Stamp e →
        (confirm_payment_and_exit env p st).1 = Ret true ∧
        table (confirm_payment_and_exit env p st).2 =
        <[i := mkRow (plate r) (Stamp e) (Stamp (now env `div` 1000000))
                (Some (Z.max 1 (ceil_minutes (now env - e * 1000000))))
                (Some (Z.max 1 (ceil_minutes (now env - e * 1000000))
                       * RATE_PER_MIN)%Z)
                OUT (slot r)]> (table st)) ∧
     (truthy_time (exit_time r) = false → strptime (entry_time r) = None →
        (confirm_payment_and_exit env p st).1 = Ret false ∧
        table (confirm_payment_and_exit env p st).2 = table st) ∧
     (truthy_time (exit_time r) = true →
        (confirm_payment_and_exit env p st).1 = Ret true ∧
        table (confirm_payment_and_exit env p st).2 =
        <[i := mkRow (plate r) (entry_time r) (exit_time r) (duration_min r)
                (amount r) OUT (slot r)]> (table st))) ∧
  (∀ st1 env2,
     confirm_payment_and_exit env p st = (Ret true, st1) →
     one_in_per_plate (table st) →
     (confirm_payment_and_exit env2 p st1).1 ≠ Ret true ∧
     table (confirm_payment_and_exit env2 p st1).2 = table st1 ∧
     length (filter (closed p) (table (confirm_payment_and_exit env2 p st1).2)) =
     S (length (filter (closed p) (table st)))).
Proof.
  split; [apply confirm_not_parked |]. split.
  - intros i r Hrow Hw Hsel Hwr.
    pose proof (proj1 (select_latest_in_Some _ _ _ _) Hrow) as (Hi & _).
    split; [| split].
    + intros Hx e He.
      destruct (confirm_ok_open env p st i r e) as [-> ->]; try done.
      split; [done |]. rewrite (alter_as_insert _ _ _ r Hi).
      unfold close_with, strftime. by rewrite He.
    + intros Hx Hparse.
      destruct (confirm_unparsed env p st i r Hrow Hx Hparse)
        as (_ & Htab & Hfalse).
      split; [by apply Hfalse | done].
    + intros Hx.
      destruct (confirm_ok_forced env p st i r) as [-> ->]; try done.
      split; [done |]. by rewrite (alter_as_insert _ _ _ r Hi).
  - intros st1 env2 H Hone.
    destruct (confirm_leaves_no_parked env p st st1 H Hone) as [Hno Hcount].
    destruct (confirm_not_parked env2 p st1 Hno) as (Hres & Htab & _).
    by rewrite Htab.
Qed.

Lemma confirm_payment_and_exit_closes_witness :
  let st := mkStore [parked_row "KA05MN7788" 900 "A1";
                     parked_row "MH12AB1234" 1000 "A2"] ∅ 0 in
  (confirm_payment_and_exit (calm 1090000000) "MH12AB1234" st).1 = Ret true ∧
  table (confirm_payment_and_exit (calm 1090000000) "MH12AB1234" st).2 =
  [parked_row "KA05MN7788" 900 "A1";
   mkRow "MH12AB1234" (Stamp 1000) (Stamp 1090) (Some 2%Z) (Some 2%Z) OUT
     (Some "A2")].
Proof.
  intros st.
  apply (proj1 (proj1 (proj2 (confirm_payment_and_exit_closes
                                (calm 1090000000) "MH12AB1234" st))
                  1 (parked_row "MH12AB1234" 1000 "A2")
                  eq_refl eq_refl eq_refl eq_refl)
           eq_refl 1000%Z eq_refl).
Defined.

End confirmation.

Section ledger_history.

Lemma table_change_keeps t t' j r :
  table_change t t' → t !! j = Some r →
  ∃ r', t' !! j = Some r' ∧ plate r' = plate r ∧
        entry_time r' = entry_time r ∧ slot r' = slot r ∧
        (status r = OUT → r' = r).
Proof.
  intros Hc Hj. destruct Hc as [| p secs label _ _ _ | i ri f Hi Hin Hp Hs _ He].
  - by exists r.
  - exists r. split; [| done]. apply lookup_app_l_Some. done.
  - destruct (decide (i = j)) as [-> | Hij].
    + assert (ri = r) as -> by congruence. exists (f r).
      rewrite list_lookup_alter_eq, Hj. repeat split; try done. congruence.
    + exists r. by rewrite list_lookup_alter_ne.
Qed.

(** X6. The three ledger operations never delete or move a row and never
    rewrite its plate, entry time or slot; a row that is OUT is never
    touched again, so what was billed stays as billed. *)
Theorem ledger_rows_are_kept (st st' : Store) (j : nat) (r : Row) :
  rtc ledger_step st st' → table st !! j = Some r →
  ∃ r', table st' !! j = Some r' ∧ plate r' = plate r ∧
        entry_time r' = entry_time r ∧ slot r' = slot r ∧
        (status r = OUT → r' = r).
Proof.
  intros Hsteps. revert r. induction Hsteps as [| x y z Hxy _ IH]; intros r Hj.
  - by exists r.
  - apply ledger_step_change in Hxy.
    destruct (table_change_keeps _ _ j r Hxy Hj) as (r1 & H1 & Hp1 & He1 & Hs1 & Ho1).
    destruct (IH r1 H1) as (r2 & H2 & Hp2 & He2 & Hs2 & Ho2).
    exists r2. repeat split; try congruence.
    intros Hout. rewrite <- (Ho1 Hout). apply Ho2. by rewrite (Ho1 Hout).
Qed.

Lemma ledger_rows_are_kept_witness :
  let st := mkStore [mkRow "MH12AB1234" (Stamp 1000) (Stamp 1090) (Some 2%Z)
                       (Some 2%Z) OUT (Some "A1")] ∅ 0 in
  let st' := (confirm_payment_and_exit (calm 2000000000) "MH12AB1234"
                (log_entry (calm 1500000000) "MH12AB1234" st).2).2 in
  ∃ r', table st' !! 0 = Some r' ∧ plate r' = "MH12AB1234" ∧
        entry_time r' = Stamp 1000 ∧ slot r' = Some "A1" ∧
        (OUT = OUT →
         r' = mkRow "MH12AB1234" (Stamp 1000) (Stamp 1090) (Some 2%Z)
                (Some 2%Z) OUT (Some "A1")).
Proof.
  intros st st'.
  apply (ledger_rows_are_kept st st' 0
           (mkRow "MH12AB1234" (Stamp 1000) (Stamp 1090) (Some 2%Z) (Some 2%Z)
              OUT (Some "A1"))).
  - eapply rtc_l; [apply step_log_entry |]. apply rtc_once, step_confirm.
  - reflexivity.
Defined.

(** X7. Entering and then paying gives the label back: after a successful
    [log_entry] for a plate and a successful [confirm_payment_and_exit]
    for it, the occupied set, and with it the allocator's next answer, are
    what they were before the entry. *)
Theorem enter_then_confirm_frees_slot
    (env1 env2 : Env) (p : string) (st st1 st2 : Store) :
  log_entry env1 p st = (Ret "entry_logged", st1) →
  confirm_payment_and_exit env2 p st1 = (Ret true, st2) →
  length (table st2) = S (length (table st)) ∧
  occupied_of (table st2) = occupied_of (table st) ∧
  (∀ env, find_next_available_slot env st2 = find_next_available_slot env st) ∧
  current_slots_of (table st2) = current_slots_of (table st).
Proof.
  intros He Hc.
  apply log_entry_cases in He as [_ [(_ & Hno & label & _ & Ht1) | [Hne _]]];
    [| done].
  apply confirm_cases in Hc as [_ [(_ & i & r & Hsel & Hupd) | [Hne _]]];
    [| done].
  set (row := mkRow p (strftime (now env1)) Null None None IN (Some label)) in *.
  assert (i = length (table st) ∧ r = row) as [-> ->].
  { apply select_latest_in_Some in Hsel as (Hi & Hp & _). rewrite Ht1 in Hi.
    apply lookup_snoc_Some in Hi as [[_ Hi] | [-> <-]]; [| done].
    exfalso. apply Hno. apply Exists_exists. exists r.
    split; [apply list_elem_of_lookup; eauto | done]. }
  assert (∃ r', table st2 = table st ++ [r'] ∧ status r' = OUT)
    as (r' & Ht2 & Hout).
  { destruct Hupd as [(_ & e & _ & ->) | (_ & ->)]; rewrite Ht1;
      rewrite <- (Nat.add_0_r (length (table st))), alter_app_r;
      eexists; by split. }
  assert (filter (λ r, status r = IN) (table st2) =
          filter (λ r, status r = IN) (table st)) as Hf.
  { rewrite Ht2, filter_app, filter_cons_False, filter_nil, app_nil_r by congruence.
    done. }
  split; [by rewrite Ht2, length_app, Nat.add_1_r |].
  assert (occupied_of (table st2) = occupied_of (table st)) as Hocc
    by (unfold occupied_of; by rewrite Hf).
  split; [done |]. split.
  - intros env. by rewrite !find_next_available_slot_eq, Hocc.
  - unfold current_slots_of. by rewrite Hf.
Qed.

Lemma enter_then_confirm_frees_slot_witness :
  let st := mkStore [parked_row "DL8CAF5030" 500 "A1"] ∅ 0 in
  let st1 := (log_entry (calm 1000000000) "MH12AB1234" st).2 in
  let st2 := (confirm_payment_and_exit (calm 1090000000) "MH12AB1234" st1).2 in
  length (table st2) = S (length (table st)) ∧
  occupied_of (table st2) = occupied_of (table st) ∧
  (∀ env, find_next_available_slot env st2 = find_next_available_slot env st) ∧
  current_slots_of (table st2) = current_slots_of (table st).
Proof.
  intros st st1 st2.
  apply (enter_then_confirm_frees_slot (calm 1000000000) (calm 1090000000)
           "MH12AB1234" st st1 st2); vm_compute; reflexivity.
Defined.

End ledger_history.

Section occupancy_map.

Lemma slots_step_dom m r : dom (slots_step m r) = dom m.
Proof.
  unfold slots_step. destruct (slot r) as [s |]; [| done].
  destruct (decide (s ∈ dom m)) as [Hs |]; [| done].
  rewrite dom_insert_L. apply subseteq_union_1_L.
  by apply singleton_subseteq_l.
Qed.

Lemma foldl_slots_step_dom rows m : dom (foldl slots_step m rows) = dom m.
Proof.
  revert m. induction rows as [| x rows IH]; intros m; simpl; [done |].
  by rewrite IH, slots_step_dom.
Qed.

(** The entry of a label after the scan: the plate of the last scanned row
    that carries the label, or what the dictionary held before. *)
Lemma foldl_slots_step_lookup rows m l :
  l ∈ dom m →
  foldl slots_step m rows !! l =
  match last (filter (λ r, slot r = Some l) rows) with
  | Some r => Some (Some (plate r))
  | None => m !! l
  end.
Proof.
  revert m. induction rows as [| x rows IH]; intros m Hl; simpl; [done |].
  rewrite IH by (by rewrite slots_step_dom).
  rewrite filter_cons.
  destruct (decide (slot x = Some l)) as [Hx | Hx].
  - rewrite last_cons.
    destruct (last (filter (λ r, slot r = Some l) rows)); [done |].
    unfold slots_step. rewrite Hx, decide_True by done.
    by rewrite lookup_insert_eq.
  - destruct (last (filter (λ r, slot r = Some l) rows)); [done |].
    unfold slots_step. destruct (slot x) as [s |]; [| done].
    destruct (decide (s ∈ dom m)); [| done].
    rewrite lookup_insert_ne; [done | congruence].
Qed.

Lemma empty_slots_dom : dom empty_slots = list_to_set SLOT_LABELS.
Proof.
  unfold empty_slots. rewrite dom_list_to_map_L.
  by rewrite <- list_fmap_compose.
Qed.

Lemma empty_slots_lookup l : l ∈ SLOT_LABELS → empty_slots !! l = Some None.
Proof.
  intros Hl. assert (l ∈ dom empty_slots) as Hd
    by (rewrite empty_slots_dom; by apply elem_of_list_to_set).
  apply elem_of_dom in Hd as [[q |] Hq]; [| done].
  by apply empty_slots_None in Hq.
Qed.

(** X8. The occupancy map of [fetch_current_slots] always has exactly the
    fifteen labels as keys.  A label is shown empty exactly when it is not
    in the occupied set of [get_occupied_slots]; otherwise it shows the
    plate of the newest IN row that carries it. *)
Theorem current_slots_match_occupied (t : list Row) (l : string) :
  l ∈ SLOT_LABELS →
  dom (current_slots_of t) = list_to_set SLOT_LABELS ∧
  (current_slots_of t !! l = Some None ↔ l ∉ occupied_of t) ∧
  (∀ q, current_slots_of t !! l = Some (Some q) ↔
        ∃ i r, t !! i = Some r ∧ status r = IN ∧ slot r = Some l ∧
               plate r = q ∧
               (∀ j r', i < j → t !! j = Some r' → status r' = IN →
                  slot r' ≠ Some l)).
Proof.
  intros Hl. unfold current_slots_of.
  split; [by rewrite foldl_slots_step_dom, empty_slots_dom |].
  rewrite foldl_slots_step_lookup
    by (rewrite empty_slots_dom; by apply elem_of_list_to_set).
  rewrite list_filter_filter, empty_slots_lookup by done.
  set (P := λ r : Row, slot r = Some l ∧ status r = IN).
  destruct (last (filter P t)) as [r |] eqn:Hlast.
  - pose proof (last_Some_elem_of _ _ Hlast) as Hin.
    apply list_elem_of_filter in Hin as [[Hs Hst] Hin].
    apply last_filter_Some in Hlast as (l1 & l2 & -> & Hall).
    rewrite Forall_lookup in Hall.
    split.
    + split; [done |]. intros Hfree. exfalso. apply Hfree.
      apply elem_of_occupied_of. exists r. repeat split; try done.
      by apply SLOT_LABELS_nonempty.
    + intros q. split.
      * intros [= <-]. exists (length l1), r.
        rewrite list_lookup_middle by done. repeat split; try done.
        intros j r' Hj Hr' Hin' Hs'.
        rewrite lookup_app_r in Hr' by lia.
        destruct (j - length l1) as [| d] eqn:Hd; [lia |]. simpl in Hr'.
        by apply (Hall d r' Hr').
      * intros (i & r0 & Hi & Hin0 & Hs0 & <- & Hlater).
        destruct (lt_eq_lt_dec i (length l1)) as [[Hlt | ->] | Hgt].
        -- exfalso. apply (Hlater (length l1) r); try done.
           by rewrite list_lookup_middle.
        -- rewrite list_lookup_middle in Hi by done. congruence.
        -- exfalso. rewrite lookup_app_r in Hi by lia.
           destruct (i - length l1) as [| d] eqn:Hd; [lia |]. simpl in Hi.
           by apply (Hall d r0 Hi).
  - apply last_None in Hlast. split.
    + split; [| done]. intros _ Hocc.
      apply elem_of_occupied_of in Hocc as (r & Hr & Hin & Hs & _).
      apply (filter_nil_not_elem_of P t r) in Hlast; done.
    + intros q. split; [done |].
      intros (i & r & Hi & Hin & Hs & _). exfalso.
      apply (filter_nil_not_elem_of P t r) in Hlast; [| done].
      apply Hlast, list_elem_of_lookup. eauto.
Qed.

Lemma current_slots_match_occupied_witness :
  let t := [parked_row "MH12AB1234" 1000 "A1"; parked_row "DL8CAF5030" 1010 "A2"] in
  dom (current_slots_of t) = list_to_set SLOT_LABELS ∧
  (current_slots_of t !! "A2" = Some None ↔ "A2" ∉ occupied_of t) ∧
  (∀ q, current_slots_of t !! "A2" = Some (Some q) ↔
        ∃ i r, t !! i = Some r ∧ status r = IN ∧ slot r = Some "A2" ∧
               plate r = q ∧
               (∀ j r', i < j → t !! j = Some r' → status r' = IN →
                  slot r' ≠ Some "A2")).
Proof.
  intros t. apply (current_slots_match_occupied t "A2").
  rewrite SLOT_LABELS_eq. right. left.
Defined.

End occupancy_map.

(** ** app-LAPTOP-0RFHURIK.py *)

Section web_views.
Import app.

Lemma table_change_newest t t' :
  table_change t t' → in_rows_newest t → in_rows_newest t'.
Proof.
  intros Hc Hnew.
  destruct Hc as [| p secs label Hno _ _ | k r f Hk Hin Hp _ Ho _]; [done | |].
  - intros i j ri rj Hi Hj Si Heq.
    apply lookup_snoc_Some in Hi as [[Hil Hi] | [-> <-]];
      apply lookup_snoc_Some in Hj as [[Hjl Hj] | [-> <-]].
    + by apply (Hnew i j ri rj).
    + exfalso. apply Hno. apply Exists_exists. exists ri.
      split; [apply list_elem_of_lookup; eauto | by split].
    + lia.
    + lia.
  - intros i j ri rj Hi Hj Si Heq.
    rewrite list_lookup_alter in Hi. destruct (decide (k = i)) as [<- | Hki].
    { rewrite Hk in Hi. simpl in Hi. injection Hi as <-. congruence. }
    rewrite list_lookup_alter in Hj. destruct (decide (k = j)) as [<- | Hkj].
    + rewrite Hk in Hj. simpl in Hj. injection Hj as <-.
      apply (Hnew i k ri r); congruence.
    + by apply (Hnew i j ri rj).
Qed.

Lemma in_rows_newest_one_per_plate t : in_rows_newest t → one_in_per_plate t.
Proof.
  intros Hnew i j ri rj Hi Hj Si Sj Heq.
  assert (j ≤ i) by (by apply (Hnew i j ri rj)).
  assert (i ≤ j) by (by apply (Hnew j i rj ri)).
  lia.
Qed.

(** X9. In a ledger grown by the three operations, the IN row of a plate
    is the newest row of that plate.  Hence [/check_status] answers ["IN"]
    exactly for the plates that are parked, and ["not_found"] exactly for
    the plates that have no row. *)
Theorem check_status_reports_parked (st st' : Store) :
  in_rows_newest (table st) → rtc ledger_step st st' →
  in_rows_newest (table st') ∧
  (∀ env p a, store a = st' → fails env AtSelect = false →
     (check_status env p a = (200, "IN") ↔ Exists (parked p) (table st')) ∧
     (check_status env p a = (200, "not_found") ↔
      ∀ r, r ∈ table st' → plate r ≠ p)).
Proof.
  intros Hnew Hsteps.
  assert (in_rows_newest (table st')) as Hnew'.
  { induction Hsteps as [| x y z Hxy _ IH]; [done |].
    apply IH. eapply table_change_newest; [| done].
    by apply ledger_step_change. }
  split; [done |]. intros env p a Ha Hsel. unfold check_status.
  rewrite Ha, Hsel.
  destruct (last (filter (λ r, plate r = p) (table st'))) as [r |] eqn:Hlast.
  - pose proof (last_Some_elem_of _ _ Hlast) as Hin.
    apply list_elem_of_filter in Hin as [Hp Hin].
    apply last_filter_Some in Hlast as (l1 & l2 & Heq & Hall).
    assert (table st' !! length l1 = Some r) as Hr
      by (rewrite Heq; by apply list_lookup_middle).
    split.
    + split.
      * intros Hst. apply Exists_exists. exists r. split; [done |].
        split; [done |]. by destruct (status r).
      * intros Hex. apply Exists_exists in Hex as (r0 & Hr0 & [Hp0 Hin0]).
        apply list_elem_of_lookup in Hr0 as [i Hi].
        assert (length l1 ≤ i) as Hle
          by (apply (Hnew' i (length l1) r0 r); congruence).
        destruct (decide (i = length l1)) as [-> | Hne].
        { assert (r0 = r) as -> by congruence. by rewrite Hin0. }
        exfalso. rewrite Heq in Hi. rewrite lookup_app_r in Hi by lia.
        destruct (i - length l1) as [| d] eqn:Hd; [lia |]. simpl in Hi.
        rewrite Forall_lookup in Hall. by apply (Hall d r0 Hi).
    + split; [by destruct (status r) |]. intros Hnone. by destruct (Hnone r Hin).
  - apply last_None in Hlast. split.
    + split; [done |]. intros Hex.
      apply Exists_exists in Hex as (r0 & Hr0 & [Hp0 _]).
      by apply (filter_nil_not_elem_of (λ r, plate r = p) _ r0) in Hlast.
    + split; [| done]. intros _ r Hr Hp.
      by apply (filter_nil_not_elem_of (λ r, plate r = p) _ r) in Hlast.
Qed.

Lemma check_status_reports_parked_witness :
  let st' := (log_entry (calm 1000000000) "MH12AB1234" fresh).2 in
  in_rows_newest (table st') ∧
  (∀ env p a, store a = st' → fails env AtSelect = false →
     (check_status env p a = (200, "IN") ↔ Exists (parked p) (table st')) ∧
     (check_status env p a = (200, "not_found") ↔
      ∀ r, r ∈ table st' → plate r ≠ p)).
Proof.
  intros st'. apply (check_status_reports_parked fresh st').
  - intros i j ri rj Hi. simpl in Hi. simplify_eq.
  - apply rtc_once, step_log_entry.
Defined.

(** X10. [/sms_webhook] acts on the token and the plate only.  Without
    the right token the answer is 500 (the 403 of [abort] is caught by the
    handler's own [except]) and nothing has changed; with it, the amount
    named in the message plays no part in what happens; and in every case
    the pending plate and the events are left as they were. *)
Theorem sms_webhook_token_and_plate
    (TOKEN : string) (env : Env) (token : option string)
    (search : option (string * string)) (a : App) :
  (token ≠ Some TOKEN →
     sms_webhook TOKEN env token search a =
     (mkResponse 500 (Text "Internal error"), a)) ∧
  (∀ amount amount' p,
     sms_webhook TOKEN env token (Some (amount, p)) a =
     sms_webhook TOKEN env token (Some (amount', p)) a) ∧
  pending_exit_plate (sms_webhook TOKEN env token search a).2 =
    pending_exit_plate a ∧
  emitted (sms_webhook TOKEN env token search a).2 = emitted a.
Proof.
  unfold sms_webhook. split; [| split].
  - intros Hne. by rewrite bool_decide_eq_false_2.
  - done.
  - destruct (negb _); [done |]. destruct search as [[amount p] |]; [| done].
    by destruct (confirm_payment_and_exit env p (store a)) as [[[|] |] st1].
Qed.

Lemma store_broadcast_logs env a : store (broadcast_logs_update env a).2 = store a.
Proof.
  unfold broadcast_logs_update. by destruct (fetch_all_logs env (store a)).
Qed.

Lemma store_broadcast_slots env a : store (broadcast_slots_update env a) = store a.
Proof.
  unfold broadcast_slots_update. by destruct (fetch_current_slots env (store a)).
Qed.

(** Where the store of the application ends up after a request. *)
Lemma handle_store TOKEN env rq a :
  store (handle TOKEN env rq a).2 = store a ∨
  (∃ p, (rq = ExitPage p ∨ rq = ApiExitInfo p) ∧
        store (handle TOKEN env rq a).2 = (log_exit env p (store a)).2) ∨
  (∃ p, ((∃ token amount, rq = SmsWebhook token (Some (amount, p))) ∨
         rq = ApiConfirmExit (Some p)) ∧
        store (handle TOKEN env rq a).2 =
        (confirm_payment_and_exit env p (store a)).2).
Proof.
  destruct rq as [token search | p | p | [p |] | data | p |]; simpl.
  - unfold sms_webhook. destruct (negb _); [by left |].
    destruct search as [[amount p] |]; [| by left].
    right. right. exists p. split; [left; eauto |].
    by destruct (confirm_payment_and_exit env p (store a)) as [[[|] |] st1].
  - right. left. exists p. split; [by left |]. unfold exit_page.
    by destruct (log_exit env p (store a)) as [[[| |] |] st1].
  - right. left. exists p. split; [by right |]. unfold api_exit_info.
    by destruct (log_exit env p (store a)) as [[[| |] |] st1].
  - unfold api_confirm_exit. destruct (negb (truthy (Some p))); [by left |].
    right. right. exists p. split; [by right |]. simpl.
    destruct (confirm_payment_and_exit env p (store a)) as [[[|] |] st1];
      simpl; try done.
    match goal with
    | |- context [broadcast_logs_update env ?x] =>
        pose proof (store_broadcast_logs env x) as Hl;
        destruct (broadcast_logs_update env x) as [[u |] a1]
    end; simpl in Hl |- *.
    + rewrite store_broadcast_slots, Hl. by case_bool_decide.
    + rewrite Hl. by case_bool_decide.
  - by left.
  - left. unfold plate_detected.
    destruct (negb (truthy (d_plate data)) || negb (truthy (d_status data)));
      [done |].
    destruct (String.eqb _ "entry_logged"); [| done].
    match goal with
    | |- context [broadcast_logs_update env ?x] =>
        pose proof (store_broadcast_logs env x) as Hl;
        destruct (broadcast_logs_update env x) as [[u |] a1]
    end; simpl in Hl |- *; [by rewrite store_broadcast_slots |]; done.
  - by left.
  - by left.
Qed.

(** X11. No request to the web application creates, deletes or moves a
    row, or rewrites a plate, an entry time or a slot; the table changes
    at all only under [/sms_webhook] and [/api/confirm_exit], and an OUT
    row is never changed. *)
Theorem web_requests_keep_rows
    (TOKEN : string) (env : Env) (rq : Request) (a : App) :
  length (table (store (handle TOKEN env rq a).2)) = length (table (store a)) ∧
  (∀ j r, table (store a) !! j = Some r →
     ∃ r', table (store (handle TOKEN env rq a).2) !! j = Some r' ∧
       plate r' = plate r ∧ entry_time r' = entry_time r ∧ slot r' = slot r ∧
       (status r = OUT → r' = r)) ∧
  (table (store (handle TOKEN env rq a).2) ≠ table (store a) →
     (∃ token search, rq = SmsWebhook token search) ∨
     (∃ plate, rq = ApiConfirmExit plate)).
Proof.
  assert (table_change (table (store a)) (table (store (handle TOKEN env rq a).2)) ∧
          length (table (store (handle TOKEN env rq a).2)) =
          length (table (store a)) ∧
          (table (store (handle TOKEN env rq a).2) ≠ table (store a) →
           (∃ token search, rq = SmsWebhook token search) ∨
           (∃ plate, rq = ApiConfirmExit plate))) as (Hc & Hlen & Hwho).
  { destruct (handle_store TOKEN env rq a)
      as [-> | [(p & Hrq & ->) | (p & Hrq & ->)]].
    - split; [constructor |]. done.
    - rewrite log_exit_table. split; [constructor |]. done.
    - split; [apply confirm_change |]. split.
      + destruct (confirm_payment_and_exit env p (store a)) as [res st1] eqn:E.
        apply confirm_cases in E as [_ [(_ & i & r & _ & Hupd) | [_ Hsame]]];
          simpl; [| by rewrite Hsame].
        destruct Hupd as [(_ & e & _ & ->) | (_ & ->)]; apply length_alter.
      + intros _. destruct Hrq as [(token & amount & ->) | ->]; eauto. }
  split; [done |]. split; [| done].
  intros j r Hj. by apply (table_change_keeps _ _ j r Hc).
Qed.

End web_views.

Section confirm_view.
Import app.

#[local] Arguments gate_opens : simpl never.

(** X12. What the answer of [/api/confirm_exit] tells.  A
    [{'success': False}] answer (no plate, or the confirmation failed)
    means that table, pending plate and events are untouched.  The 200
    answer is given exactly when the confirmation succeeded and the log
    refresh did not raise.  When the confirmation succeeded and the log
    refresh raises, the answer is an unhandled 500 although the stay is
    closed and the gate has been asked to open. *)
Theorem api_confirm_exit_answers (env : Env) (plate : option string) (a : App) :
  (∀ c e, (api_confirm_exit env plate a).1 = mkResponse c (Success false e) →
     table (store (api_confirm_exit env plate a).2) = table (store a) ∧
     pending_exit_plate (api_confirm_exit env plate a).2 = pending_exit_plate a ∧
     emitted (api_confirm_exit env plate a).2 = emitted a) ∧
  (∀ p, plate = Some p → p ≠ "" →
     ((api_confirm_exit env plate a).1 = mkResponse 200 (Success true None) ↔
      (confirm_payment_and_exit env p (store a)).1 = Ret true ∧
      fails env AtLogs = false) ∧
     ((confirm_payment_and_exit env p (store a)).1 = Ret true →
      fails env AtLogs = true →
      (api_confirm_exit env plate a).1 = mkResponse 500 Unhandled ∧
      store (api_confirm_exit env plate a).2 =
        (confirm_payment_and_exit env p (store a)).2 ∧
      gate_opens p (emitted (api_confirm_exit env plate a).2) =
        S (gate_opens p (emitted a)))).
Proof.
  split.
  - intros c e. unfold api_confirm_exit.
    destruct (negb (truthy plate)); simpl; [done |].
    destruct (confirm_payment_and_exit env (default "" plate) (store a))
      as [res st1] eqn:E.
    pose proof (confirm_cases _ _ _ _ _ E) as [_ Hcases].
    destruct res as [[|] |]; simpl.
    + unfold broadcast_logs_update, fetch_all_logs. simpl.
      destruct (fails env AtLogs); simpl; intros [=].
    + intros _. destruct Hcases as [[Hok _] | [_ Hsame]]; [done |]. done.
    + intros [=].
  - intros p -> Hp. unfold api_confirm_exit.
    apply truthy_Some in Hp. rewrite Hp. simpl.
    destruct (confirm_payment_and_exit env p (store a)) as [[[|] |] st1]; simpl.
    + unfold broadcast_logs_update, fetch_all_logs. simpl.
      destruct (fails env AtLogs); simpl.
      * split; [split; [intros [=] | intros [_ [=]]] |].
        intros _ _. split; [done |].
        destruct (bool_decide (pending_exit_plate a = Some p)); simpl;
          (split; [done |]);
          rewrite !gate_opens_emit; simpl; rewrite String.eqb_refl; lia.
      * split; [| intros _ [=]]. split; [done |]. intros _.
        reflexivity.
    + split; [| intros [=]]. split; [intros [=] | intros [[=] _]].
    + split; [| intros [=]]. split; [intros [=] | intros [[=] _]].
Qed.

Lemma api_confirm_exit_answers_witness :
  let a := mkApp (mkStore [parked_row "MH12AB1234" 1000 "A1"] ∅ 0)
             (Some "MH12AB1234") [] in
  let env := mkEnv 1090000000 (λ _, Free)
               (λ s, match s with AtLogs => true | _ => false end) in
  ((api_confirm_exit env (Some "MH12AB1234") a).1 =
     mkResponse 200 (Success true None) ↔
   (confirm_payment_and_exit env "MH12AB1234" (store a)).1 = Ret true ∧
   fails env AtLogs = false) ∧
  ((confirm_payment_and_exit env "MH12AB1234" (store a)).1 = Ret true →
   fails env AtLogs = true →
   (api_confirm_exit env (Some "MH12AB1234") a).1 = mkResponse 500 Unhandled ∧
   store (api_confirm_exit env (Some "MH12AB1234") a).2 =
     (confirm_payment_and_exit env "MH12AB1234" (store a)).2 ∧
   gate_opens "MH12AB1234"
     (emitted (api_confirm_exit env (Some "MH12AB1234") a).2) =
     S (gate_opens "MH12AB1234" (emitted a))).
Proof.
  intros a env.
  apply (proj2 (api_confirm_exit_answers env (Some "MH12AB1234") a)
           "MH12AB1234" eq_refl).
  discriminate.
Defined.

Lemma truthy_falsy (o : option string) :
  truthy o = false ↔ o = None ∨ o = Some "".
Proof.
  destruct o as [s |]; simpl.
  - destruct (String.eqb_spec s "") as [-> | Hne]; simpl; split; try done.
    + by right.
    + intros [| [= ]]; done.
  - split; [by left | done].
Qed.

Lemma plate_detected_ok env data a p status :
  d_plate data = Some p → p ≠ "" → d_status data = Some status → status ≠ "" →
  ∃ more,
    plate_detected env data a =
    (if String.eqb status "entry_logged" && fails env AtLogs
     then mkResponse 500 Unhandled else mkResponse 200 (Success true None),
     mkApp (store a) (pending_exit_plate a)
       (emitted a ++
        Ev_plate_detected p status (d_amount data) (d_duration data)
          (d_entry_time data) (d_exit_time data) :: more)) ∧
    (status ≠ "entry_logged" → more = []).
Proof.
  intros Hp Hpne Hs Hsne. unfold plate_detected. rewrite Hp, Hs.
  apply truthy_Some in Hpne, Hsne. rewrite Hpne, Hsne. simpl.
  destruct (String.eqb_spec status "entry_logged") as [He | He]; simpl.
  - unfold broadcast_logs_update, broadcast_slots_update, fetch_all_logs,
      fetch_current_slots, emit. simpl.
    destruct (fails env AtLogs), (fails env AtSlots); simpl;
      eexists;
      (split; [rewrite <- ?(assoc_L (++)); reflexivity | intros; congruence]).
  - exists []. done.
Qed.

(** X13. [/api/plate_detected] never touches the store or the pending
    plate.  It refuses a body without plate or without status with 400 and
    emits nothing; otherwise the first event it emits is the detection it
    was sent, and it refreshes logs and slots only for the status
    ["entry_logged"]. *)
Theorem plate_detected_relays (env : Env) (data : Detection) (a : App) :
  store (plate_detected env data a).2 = store a ∧
  pending_exit_plate (plate_detected env data a).2 = pending_exit_plate a ∧
  ((d_plate data = None ∨ d_plate data = Some "" ∨
    d_status data = None ∨ d_status data = Some "") ↔
   (plate_detected env data a).1 =
     mkResponse 400 (Success false (Some "Missing required fields"))) ∧
  ((plate_detected env data a).1 =
     mkResponse 400 (Success false (Some "Missing required fields")) →
   emitted (plate_detected env data a).2 = emitted a) ∧
  (∀ p status, d_plate data = Some p → p ≠ "" →
     d_status data = Some status → status ≠ "" →
     ∃ more,
       emitted (plate_detected env data a).2 =
       emitted a ++
         Ev_plate_detected p status (d_amount data) (d_duration data)
           (d_entry_time data) (d_exit_time data) :: more ∧
       (status ≠ "entry_logged" → more = [])).
Proof.
  destruct (truthy (d_plate data) && truthy (d_status data)) eqn:T.
  - apply andb_true_iff in T as [Tp Ts].
    destruct (d_plate data) as [p |] eqn:Hp; [| done].
    destruct (d_status data) as [s |] eqn:Hs; [| done].
    apply truthy_Some in Tp, Ts.
    assert (d_plate data = Some p) as Hp' by done.
    assert (d_status data = Some s) as Hs' by done.
    destruct (plate_detected_ok env data a p s Hp' Tp Hs' Ts) as (more & E & Hm).
    rewrite E. simpl.
    split; [done |]. split; [done |]. split; [| split].
    + split; [intros [| [| [|]]]; simplify_eq |]. by destruct (_ && _).
    + by destruct (_ && _).
    + intros p' s' [= <-] _ [= <-] _. by exists more.
  - assert (plate_detected env data a =
            (mkResponse 400 (Success false (Some "Missing required fields")), a))
      as E.
    { unfold plate_detected. apply andb_false_iff in T as [-> | ->]; simpl;
        [done |]. by rewrite orb_true_r. }
    rewrite E. simpl. repeat split; try done.
    + intros _. apply andb_false_iff in T as [T | T];
        apply truthy_falsy in T; destruct T as [T | T]; auto.
    + intros p s Hp Hpne Hs Hsne. apply truthy_Some in Hpne, Hsne.
      rewrite Hp, Hs, Hpne, Hsne in T. done.
Qed.

Lemma plate_detected_relays_witness :
  let data := mkDetection (Some "MH12AB1234") (Some "exit_pending") (Some "2")
                (Some "2") None None in
  let a := mkApp fresh None [] in
  ∃ more,
    emitted (plate_detected (calm 0) data a).2 =
    emitted a ++
      Ev_plate_detected "MH12AB1234" "exit_pending" (d_amount data)
        (d_duration data) (d_entry_time data) (d_exit_time data) :: more ∧
    ("exit_pending" ≠ "entry_logged" → more = []).
Proof.
  intros data a.
  apply (proj2 (proj2 (proj2 (proj2 (plate_detected_relays (calm 0) data a))))
           "MH12AB1234" "exit_pending"); try reflexivity; discriminate.
Defined.

End confirm_view.

(** ** arduino_handler.py and nesm-LAPTOP-0RFHURIK.py *)

Section gate_hardware.
Import app arduino_handler nesm.

#[local] Arguments gate_opens : simpl never.

(** X14. The subscriber of [open_exit_gate] does nothing at all without a
    connected board.  With one, it holds for three seconds and writes
    OPEN_EXIT and then CLOSE_EXIT, each only if its own write goes
    through: the close is attempted even when the open failed, and nothing
    else ever goes out on the line. *)
Theorem on_open_exit_gate_commands (serial_ok : nat → bool) (n : Nesm) :
  ((∀ h, arduino n = Some h → is_connected h = false) →
     _on_open_exit_gate serial_ok n = n) ∧
  (∀ h, arduino n = Some h → is_connected h = true →
     _on_open_exit_gate serial_ok n =
     mkNesm
       (Some (mkArduino (connected h) (serial_conn h)
                (written h ++
                 (if serial_ok 0 then ["OPEN_EXIT"] else []) ++
                 (if serial_ok 1 then ["CLOSE_EXIT"] else []))))
       (dwell n + 3000)%Z).
Proof.
  unfold _on_open_exit_gate. split.
  - intros Hoff. destruct (arduino n) as [h |]; [| done].
    by rewrite (Hoff h eq_refl).
  - intros h -> Hon. rewrite Hon.
    unfold is_connected in Hon. apply andb_true_iff in Hon as [Hc Hs].
    unfold open_exit_gate, close_exit_gate, send_command. rewrite Hc, Hs. simpl.
    destruct (serial_ok 0), (serial_ok 1); simpl; rewrite ?Hc, ?Hs; simpl;
      rewrite <- ?(assoc_L (++)), ?app_nil_r; destruct h; simpl in *; by subst.
Qed.

Lemma on_open_exit_gate_commands_witness :
  let h := mkArduino true true ["OPEN_ENTRY"; "CLOSE_ENTRY"] in
  let ok := λ k : nat, if decide (k = 0) then false else true in
  _on_open_exit_gate ok (mkNesm (Some h) 0) =
  mkNesm
    (Some (mkArduino (connected h) (serial_conn h)
             (written h ++
              (if ok 0 then ["OPEN_EXIT"] else []) ++
              (if ok 1 then ["CLOSE_EXIT"] else []))))
    (0 + 3000)%Z.
Proof.
  intros h ok.
  apply (proj2 (on_open_exit_gate_commands ok (mkNesm (Some h) 0)) h);
    reflexivity.
Defined.

(** X15. The camera loop leaves everything alone unless a detection mode
    is set and the OCR yields a plate that differs from the last one
    processed or comes more than five seconds after it; the only thing a
    pass may still do is switch to entry mode on the key 'c' when there is
    no board. *)
Theorem loop_iteration_idle
    (o : Oracle) (key_c : bool) (now_time : Z) (detected : option string)
    (a : App) (l : Loop) :
  let l0 := if key_c && (if arduino (hw l) is None then true else false)
            then set_mode (Some "entry") l else l in
  (truthy (detection_mode l0) = false ∨ truthy detected = false ∨
   (detected = last_detected_plate l ∧
    (now_time - last_detection_time l ≤ cooldown)%Z)) →
  loop_iteration o key_c now_time detected a l = (a, l0).
Proof.
  intros l0 Hidle. unfold loop_iteration. fold l0.
  destruct (truthy (detection_mode l0)); [| done].
  destruct Hidle as [H | [-> | [Heq Hcool]]]; [done | done |].
  assert (last_detected_plate l0 = last_detected_plate l ∧
          last_detection_time l0 = last_detection_time l) as [-> ->]
    by (subst l0; by destruct (_ && _)).
  rewrite bool_decide_eq_true_2 by done. simpl.
  assert ((cooldown <? now_time - last_detection_time l)%Z = false) as ->
    by (apply Z.ltb_ge; lia).
  by rewrite andb_false_r.
Qed.

Lemma loop_iteration_idle_witness :
  let l := mkLoop (mkNesm None 0) (Some "exit") ExitScanning
             (Some "MH12AB1234") 100000000 in
  loop_iteration
    (mkOracle (λ _, "") (calm 0) (calm 0) (calm 0) (λ _, true) (λ _, true) 0)
    false 103000000 (Some "MH12AB1234")
    (mkApp (mkStore [parked_row "MH12AB1234" 50 "A1"] ∅ 0) None []) l =
  (mkApp (mkStore [parked_row "MH12AB1234" 50 "A1"] ∅ 0) None [], l).
Proof.
  intros l.
  apply (loop_iteration_idle
           (mkOracle (λ _, "") (calm 0) (calm 0) (calm 0) (λ _, true)
              (λ _, true) 0)
           false 103000000 (Some "MH12AB1234")
           (mkApp (mkStore [parked_row "MH12AB1234" 50 "A1"] ∅ 0) None []) l).
  right. right. split; [reflexivity |]. vm_compute. discriminate.
Defined.

Lemma send_set_pending_exit reach p a :
  (send_api_request reach (set_pending_exit p) a).2 =
  if reach then mkApp (store a) (Some p) (emitted a ++ [Ev_pending_exit p])
  else a.
Proof. by destruct reach. Qed.

Lemma plate_detected_gate q env data a :
  gate_opens q (emitted (plate_detected env data a).2) =
  gate_opens q (emitted a).
Proof.
  pose proof (handle_gate_opens "" env (PlateDetected data) a q) as H.
  simpl in H. lia.
Qed.

Lemma send_plate_detected_frame reach env data a :
  store (send_api_request reach (plate_detected env data) a).2 = store a ∧
  pending_exit_plate (send_api_request reach (plate_detected env data) a).2 =
    pending_exit_plate a ∧
  (∀ q, gate_opens q
          (emitted (send_api_request reach (plate_detected env data) a).2) =
        gate_opens q (emitted a)).
Proof.
  unfold send_api_request. destruct reach; simpl; [| done].
  destruct (plate_detected_relays env data a) as (Hs & Hp & _).
  repeat split; try done. intros q. apply plate_detected_gate.
Qed.

Lemma process_plate_exit_branch (o : Oracle) (p : string) (a : App) (l : Loop) :
  fails (o_sel o) AtSelect = false →
  Exists (parked p) (table (store a)) →
  table (store (process_plate o p a l).1) = table (store a) ∧
  hw (process_plate o p a l).2 = hw l ∧
  (∀ q, gate_opens q (emitted (process_plate o p a l).1) =
        gate_opens q (emitted a)) ∧
  (∀ d, (log_exit (o_op o) p (store a)).1 = Ret (VDict d) →
     status_message (process_plate o p a l).2 = DatabaseError p ∧
     pending_exit_plate (process_plate o p a l).1 =
       (if o_reach o 0 then Some p else pending_exit_plate a)) ∧
  ((∀ d, (log_exit (o_op o) p (store a)).1 ≠ Ret (VDict d)) →
     pending_exit_plate (process_plate o p a l).1 = pending_exit_plate a ∧
     emitted (process_plate o p a l).1 = emitted a).
Proof.
  intros Hsel Hex. unfold process_plate. rewrite Hsel, decide_True by done.
  pose proof (log_exit_table (o_op o) p (store a)) as Ht.
  destruct (log_exit (o_op o) p (store a)) as [[[s | b | d] |] st1];
    simpl in Ht |- *; try (repeat split; try done; intros d' Hd; by destruct (Hd d')).
  rewrite send_set_pending_exit.
  match goal with
  | |- context [send_api_request (o_reach o 1) (plate_detected ?e ?data) ?x] =>
      destruct (send_plate_detected_frame (o_reach o 1) e data x)
        as (Hs1 & Hp1 & Hg1)
  end.
  rewrite Hs1, Hp1.
  split; [by destruct (o_reach o 0) |]. split; [done |]. split; [| split].
  - intros q. rewrite Hg1.
    destruct (o_reach o 0); simpl; [| done].
    rewrite gate_opens_emit. simpl. lia.
  - intros d' _. split; [done |]. by destruct (o_reach o 0).
  - intros Hd. by destruct (Hd d).
Qed.

(** X16. A detected plate that has an IN row is handled as an exit,
    whichever sensor set the mode: the table is not written, nothing goes
    to the gate hardware and no [open_exit_gate] is emitted.  When
    [log_exit] returns a quote and the first request reaches the server,
    the plate becomes the pending exit plate; the loop then ends in its
    [except] clause, with the database-error message on screen.  When
    [log_exit] returns no quote, pending plate and events stay as they
    were. *)
Theorem process_plate_parked (o : Oracle) (p : string) (a : App) (l : Loop) :
  fails (o_sel o) AtSelect = false →
  Exists (parked p) (table (store a)) →
  table (store (process_plate o p a l).1) = table (store a) ∧
  hw (process_plate o p a l).2 = hw l ∧
  (∀ q, gate_opens q (emitted (process_plate o p a l).1) =
        gate_opens q (emitted a)) ∧
  (∀ d, (log_exit (o_op o) p (store a)).1 = Ret (VDict d) →
     status_message (process_plate o p a l).2 = DatabaseError p ∧
     pending_exit_plate (process_plate o p a l).1 =
       (if o_reach o 0 then Some p else pending_exit_plate a)) ∧
  ((∀ d, (log_exit (o_op o) p (store a)).1 ≠ Ret (VDict d)) →
     pending_exit_plate (process_plate o p a l).1 = pending_exit_plate a ∧
     emitted (process_plate o p a l).1 = emitted a).
Proof. apply process_plate_exit_branch. Qed.

Lemma process_plate_parked_witness :
  let o := mkOracle (λ _, "") (calm 1061000000) (calm 1061000000)
             (calm 1061000000) (λ _, true) (λ _, true) 1061000000 in
  let a := mkApp (mkStore [parked_row "MH12AB1234" 1000 "A1"] ∅ 0) None [] in
  let l := mkLoop (mkNesm (Some (mkArduino true true [])) 0) (Some "entry")
             EntryScanning None 0 in
  table (store (process_plate o "MH12AB1234" a l).1) = table (store a) ∧
  hw (process_plate o "MH12AB1234" a l).2 = hw l ∧
  (∀ q, gate_opens q (emitted (process_plate o "MH12AB1234" a l).1) =
        gate_opens q (emitted a)) ∧
  (∀ d, (log_exit (o_op o) "MH12AB1234" (store a)).1 = Ret (VDict d) →
     status_message (process_plate o "MH12AB1234" a l).2 =
       DatabaseError "MH12AB1234" ∧
     pending_exit_plate (process_plate o "MH12AB1234" a l).1 =
       (if o_reach o 0 then Some "MH12AB1234" else pending_exit_plate a)) ∧
  ((∀ d, (log_exit (o_op o) "MH12AB1234" (store a)).1 ≠ Ret (VDict d)) →
     pending_exit_plate (process_plate o "MH12AB1234" a l).1 =
       pending_exit_plate a ∧
     emitted (process_plate o "MH12AB1234" a l).1 = emitted a).
Proof.
  intros o a l. apply (process_plate_parked o "MH12AB1234" a l).
  - reflexivity.
  - left. split; reflexivity.
Defined.

(** What the gate block of the entry branch sends. *)
Lemma pass_entry_gate_eq (serial_ok : nat → bool) (n : Nesm) (h : ArduinoHandler) :
  arduino n = Some h →
  pass_entry_gate serial_ok n =
  if is_connected h then
    mkNesm
      (Some (mkArduino (connected h) (serial_conn h)
               (written h ++
                (if serial_ok 0 then ["OPEN_ENTRY"] else []) ++
                (if serial_ok 1 then ["CLOSE_ENTRY"] else []))))
      (dwell n + 3000)%Z
  else n.
Proof.
  intros Hn. unfold pass_entry_gate. rewrite Hn.
  destruct (is_connected h) eqn:Hon; [| done].
  unfold is_connected in Hon. apply andb_true_iff in Hon as [Hc Hs].
  unfold open_entry_gate, close_entry_gate, send_command. rewrite Hc, Hs. simpl.
  destruct (serial_ok 0), (serial_ok 1); simpl; rewrite ?Hc, ?Hs; simpl;
    rewrite <- ?(assoc_L (++)), ?app_nil_r; destruct h; simpl in *; by subst.
Qed.

Lemma pass_entry_gate_commands (serial_ok : nat → bool) (n : Nesm) :
  (arduino n = None → pass_entry_gate serial_ok n = n) ∧
  (∀ h, arduino n = Some h →
     ∃ cmds,
       arduino (pass_entry_gate serial_ok n) =
         Some (mkArduino (connected h) (serial_conn h) (written h ++ cmds)) ∧
       Forall (λ c, c = "OPEN_ENTRY" ∨ c = "CLOSE_ENTRY") cmds ∧
       (is_connected h = true → serial_ok 0 = true → serial_ok 1 = true →
        cmds = ["OPEN_ENTRY"; "CLOSE_ENTRY"])).
Proof.
  split; [unfold pass_entry_gate; by intros -> |].
  intros h Hn. rewrite (pass_entry_gate_eq serial_ok n h Hn).
  destruct (is_connected h).
  - eexists. split; [reflexivity |]. split.
    + destruct (serial_ok 0), (serial_ok 1); simpl;
        repeat (apply Forall_cons; split; [by auto |]); apply Forall_nil_2.
    + by intros _ -> ->.
  - exists []. rewrite app_nil_r, Hn. split; [by destruct h |].
    split; [constructor | done].
Qed.

Lemma process_plate_entry_branch (o : Oracle) (p : string) (a : App) (l : Loop) :
  fails (o_sel o) AtSelect = false → p ≠ "" →
  ¬ Exists (parked p) (table (store a)) →
  store (process_plate o p a l).1 = (log_entry (o_op o) p (store a)).2 ∧
  pending_exit_plate (process_plate o p a l).1 = pending_exit_plate a ∧
  (∀ q, gate_opens q (emitted (process_plate o p a l).1) =
        gate_opens q (emitted a)) ∧
  (∀ res, (log_entry (o_op o) p (store a)).1 = Ret res →
     (res = "already_in" ∨ res = "db_locked" ∨ res = "full" →
        hw (process_plate o p a l).2 = hw l ∧
        emitted (process_plate o p a l).1 = emitted a) ∧
     (res ≠ "already_in" → res ≠ "db_locked" → res ≠ "full" →
        hw (process_plate o p a l).2 = pass_entry_gate (o_serial o) (hw l) ∧
        status_message (process_plate o p a l).2 = EntryLogged p ∧
        (o_reach o 0 = true →
         ∃ more,
           emitted (process_plate o p a l).1 =
           emitted a ++
             Ev_plate_detected p "entry_logged" None None
               (Some (o_text o (strftime (o_now_sent o)))) None :: more))).
Proof.
  intros Hsel Hp Hno. unfold process_plate. rewrite Hsel, decide_False by done.
  destruct (log_entry (o_op o) p (store a)) as [[r0 |] st1]; simpl.
  2: { split; [done |]. split; [done |]. split; [done |]. intros res [=]. }
  destruct (String.eqb_spec r0 "already_in") as [E1 | H1]; simpl.
  { split; [done |]. split; [done |]. split; [done |].
    intros res [= <-]. split; [done |]. intros Hne. by destruct Hne. }
  destruct (String.eqb_spec r0 "db_locked") as [E2 | H2]; simpl.
  { split; [done |]. split; [done |]. split; [done |].
    intros res [= <-]. split; [done |]. intros _ Hne. by destruct Hne. }
  destruct (String.eqb_spec r0 "full") as [E3 | H3]; simpl.
  { split; [done |]. split; [done |]. split; [done |].
    intros res [= <-]. split; [done |]. intros _ _ Hne. by destruct Hne. }
  match goal with
  | |- context [send_api_request (o_reach o 0) (plate_detected ?e ?data) ?x] =>
      destruct (send_plate_detected_frame (o_reach o 0) e data x)
        as (Hs1 & Hp1 & Hg1);
      pose proof (plate_detected_relays e data x) as (_ & _ & _ & _ & Hev)
  end.
  rewrite Hs1, Hp1. split; [done |]. split; [done |]. split; [done |].
  intros res [= <-]. split; [intros [| [|]]; done |].
  intros _ _ _. split; [done |]. split; [done |].
  intros Hreach. unfold send_api_request. rewrite Hreach. simpl.
  destruct (Hev p "entry_logged") as (more & Hm & _); try done.
  by exists more.
Qed.

(** X17. A detected plate without an IN row is handled as an entry: the
    store is the one [log_entry] leaves, the pending plate is untouched
    and no [open_exit_gate] is emitted.  On [already_in], [db_locked] and
    [full] nothing is sent to the board or to the server.  On every other
    return value (so on [entry_logged], but on [db_error] as well) the
    entry gate block runs, the screen says that the entry was logged, and
    a request that reaches the server makes it broadcast the detection
    with status [entry_logged]. *)
Theorem process_plate_not_parked (o : Oracle) (p : string) (a : App) (l : Loop) :
  fails (o_sel o) AtSelect = false → p ≠ "" →
  ¬ Exists (parked p) (table (store a)) →
  store (process_plate o p a l).1 = (log_entry (o_op o) p (store a)).2 ∧
  pending_exit_plate (process_plate o p a l).1 = pending_exit_plate a ∧
  (∀ q, gate_opens q (emitted (process_plate o p a l).1) =
        gate_opens q (emitted a)) ∧
  (∀ res, (log_entry (o_op o) p (store a)).1 = Ret res →
     (res = "already_in" ∨ res = "db_locked" ∨ res = "full" →
        hw (process_plate o p a l).2 = hw l ∧
        emitted (process_plate o p a l).1 = emitted a) ∧
     (res ≠ "already_in" → res ≠ "db_locked" → res ≠ "full" →
        hw (process_plate o p a l).2 = pass_entry_gate (o_serial o) (hw l) ∧
        status_message (process_plate o p a l).2 = EntryLogged p ∧
        (o_reach o 0 = true →
         ∃ more,
           emitted (process_plate o p a l).1 =
           emitted a ++
             Ev_plate_detected p "entry_logged" None None
               (Some (o_text o (strftime (o_now_sent o)))) None :: more))).
Proof. apply process_plate_entry_branch. Qed.

Lemma process_plate_not_parked_witness :
  let o := mkOracle (λ _, "") (calm 1000000000) (calm 1000000000)
             (calm 1003000000) (λ _, true) (λ _, true) 1003000000 in
  let a := mkApp fresh None [] in
  let l := mkLoop (mkNesm (Some (mkArduino true true [])) 0) (Some "exit")
             ExitScanning None 0 in
  store (process_plate o "MH12AB1234" a l).1 =
    (log_entry (o_op o) "MH12AB1234" (store a)).2 ∧
  pending_exit_plate (process_plate o "MH12AB1234" a l).1 =
    pending_exit_plate a ∧
  (∀ q, gate_opens q (emitted (process_plate o "MH12AB1234" a l).1) =
        gate_opens q (emitted a)) ∧
  (∀ res, (log_entry (o_op o) "MH12AB1234" (store a)).1 = Ret res →
     (res = "already_in" ∨ res = "db_locked" ∨ res = "full" →
        hw (process_plate o "MH12AB1234" a l).2 = hw l ∧
        emitted (process_plate o "MH12AB1234" a l).1 = emitted a) ∧
     (res ≠ "already_in" → res ≠ "db_locked" → res ≠ "full" →
        hw (process_plate o "MH12AB1234" a l).2 =
          pass_entry_gate (o_serial o) (hw l) ∧
        status_message (process_plate o "MH12AB1234" a l).2 =
          EntryLogged "MH12AB1234" ∧
        (o_reach o 0 = true →
         ∃ more,
           emitted (process_plate o "MH12AB1234" a l).1 =
           emitted a ++
             Ev_plate_detected "MH12AB1234" "entry_logged" None None
               (Some (o_text o (strftime (o_now_sent o)))) None :: more))).
Proof.
  intros o a l. apply (process_plate_not_parked o "MH12AB1234" a l).
  - reflexivity.
  - discriminate.
  - intros H. inversion H.
Defined.

Lemma process_plate_effects (o : Oracle) (p : string) (a : App) (l : Loop) :
  (∀ q, gate_opens q (emitted (process_plate o p a l).1) =
        gate_opens q (emitted a)) ∧
  (hw (process_plate o p a l).2 = hw l ∨
   hw (process_plate o p a l).2 = pass_entry_gate (o_serial o) (hw l)) ∧
  (pending_exit_plate (process_plate o p a l).1 = pending_exit_plate a ∨
   pending_exit_plate (process_plate o p a l).1 = Some p).
Proof.
  unfold process_plate. destruct (fails (o_sel o) AtSelect); [by auto |].
  destruct (decide (Exists (parked p) (table (store a)))) as [Hex | Hno].
  - destruct (log_exit (o_op o) p (store a)) as [[[s | b | d] |] st1];
      simpl; try (by auto).
    rewrite send_set_pending_exit.
    match goal with
    | |- context [send_api_request (o_reach o 1) (plate_detected ?e ?data) ?x] =>
        destruct (send_plate_detected_frame (o_reach o 1) e data x)
          as (Hs1 & Hp1 & Hg1)
    end.
    rewrite Hp1. split; [| split; [by left |]].
    + intros q. rewrite Hg1. destruct (o_reach o 0); simpl; [| done].
      rewrite gate_opens_emit. simpl. lia.
    + destruct (o_reach o 0); simpl; auto.
  - destruct (log_entry (o_op o) p (store a)) as [[r0 |] st1]; simpl;
      [| by auto].
    destruct (String.eqb r0 "already_in"); simpl; [by auto |].
    destruct (String.eqb r0 "db_locked"); simpl; [by auto |].
    destruct (String.eqb r0 "full"); simpl; [by auto |].
    match goal with
    | |- context [send_api_request (o_reach o 0) (plate_detected ?e ?data) ?x] =>
        destruct (send_plate_detected_frame (o_reach o 0) e data x)
          as (Hs1 & Hp1 & Hg1)
    end.
    rewrite Hp1. split; [| by auto]. intros q. by rewrite Hg1.
Qed.

(** X18. Whatever it detects, one pass of the camera loop never asks for
    the exit gate: it emits no [open_exit_gate] event, and what it writes
    to the board, if anything, is OPEN_ENTRY and CLOSE_ENTRY only.  The
    pending exit plate after the pass is the one before or the plate just
    detected. *)
Theorem camera_never_opens_exit_gate
    (o : Oracle) (key_c : bool) (now_time : Z) (detected : option string)
    (a : App) (l : Loop) :
  (∀ q, gate_opens q (emitted (loop_iteration o key_c now_time detected a l).1)
        = gate_opens q (emitted a)) ∧
  (arduino (hw l) = None →
   arduino (hw (loop_iteration o key_c now_time detected a l).2) = None) ∧
  (∀ h, arduino (hw l) = Some h →
     ∃ cmds,
       arduino (hw (loop_iteration o key_c now_time detected a l).2) =
         Some (mkArduino (connected h) (serial_conn h) (written h ++ cmds)) ∧
       Forall (λ c, c = "OPEN_ENTRY" ∨ c = "CLOSE_ENTRY") cmds) ∧
  (pending_exit_plate (loop_iteration o key_c now_time detected a l).1 =
     pending_exit_plate a ∨
   pending_exit_plate (loop_iteration o key_c now_time detected a l).1 =
     detected).
Proof.
  assert (∀ n : Nesm,
            (arduino n = None → arduino n = None) ∧
            (∀ h, arduino n = Some h →
               ∃ cmds,
                 arduino n =
                   Some (mkArduino (connected h) (serial_conn h)
                           (written h ++ cmds)) ∧
                 Forall (λ c, c = "OPEN_ENTRY" ∨ c = "CLOSE_ENTRY") cmds))
    as Hsame.
  { intros n. split; [done |]. intros h ->. exists [].
    rewrite app_nil_r. split; [by destruct h | constructor]. }
  unfold loop_iteration.
  set (l0 := if key_c && _ then set_mode (Some "entry") l else l).
  assert (hw l0 = hw l) as Hhw by (subst l0; by destruct (_ && _)).
  destruct (truthy (detection_mode l0)); simpl;
    [| rewrite Hhw; destruct (Hsame (hw l)); by auto].
  destruct (truthy detected && _) eqn:Hgo; simpl;
    [| rewrite Hhw; destruct (Hsame (hw l)); by auto].
  apply andb_true_iff in Hgo as [Hdet _].
  destruct detected as [p |]; [| done]. simpl.
  destruct (bool_decide _); simpl;
    [| rewrite Hhw; destruct (Hsame (hw l)); by auto].
  match goal with
  | |- context [process_plate o p a ?l1] =>
      destruct (process_plate_effects o p a l1) as (Hg & Hh & Hp);
      destruct (process_plate o p a l1) as [a' l'] eqn:E
  end.
  simpl in *. split; [done |]. rewrite Hhw in Hh.
  destruct (pass_entry_gate_commands (o_serial o) (hw l)) as [Hnone Hsome].
  destruct Hh as [-> | ->].
  - destruct (Hsame (hw l)). by auto.
  - split; [| split; [| done]].
    + intros Hn. by rewrite Hnone.
    + intros h Hn. destruct (Hsome h Hn) as (cmds & ? & ? & _). eauto.
Qed.

Lemma api_confirm_exit_store env p a :
  p ≠ "" →
  store (api_confirm_exit env (Some p) a).2 =
  (confirm_payment_and_exit env p (store a)).2.
Proof.
  intros Hp. unfold api_confirm_exit. apply truthy_Some in Hp. rewrite Hp. simpl.
  destruct (confirm_payment_and_exit env p (store a)) as [[[|] |] st1];
    simpl; try done.
  match goal with
  | |- context [broadcast_logs_update env ?x] =>
      pose proof (store_broadcast_logs env x) as Hl;
      destruct (broadcast_logs_update env x) as [[u |] a1]
  end; simpl in Hl |- *.
  - rewrite store_broadcast_slots, Hl. by case_bool_decide.
  - rewrite Hl. by case_bool_decide.
Qed.

(** X19. The exit handshake end to end.  A parked plate is detected, the
    quote succeeds and the request reaches the server: the plate is the
    pending exit plate and no gate has been asked for.  When
    [/api/confirm_exit] for the plate then succeeds, the pending plate is
    cleared, exactly one [open_exit_gate] for the plate has been emitted
    since the detection, and (one IN row per plate) the plate is no longer
    parked; the board itself was not driven by the camera process in
    between. *)
Theorem exit_handshake
    (o : Oracle) (env : Env) (p : string) (a : App) (l : Loop) (d : ExitInfo) :
  p ≠ "" →
  fails (o_sel o) AtSelect = false →
  one_in_per_plate (table (store a)) →
  Exists (parked p) (table (store a)) →
  (log_exit (o_op o) p (store a)).1 = Ret (VDict d) →
  o_reach o 0 = true →
  (confirm_payment_and_exit env p (store (process_plate o p a l).1)).1
    = Ret true →
  pending_exit_plate (process_plate o p a l).1 = Some p ∧
  gate_opens p (emitted (process_plate o p a l).1) = gate_opens p (emitted a) ∧
  hw (process_plate o p a l).2 = hw l ∧
  pending_exit_plate (api_confirm_exit env (Some p) (process_plate o p a l).1).2
    = None ∧
  gate_opens p
    (emitted (api_confirm_exit env (Some p) (process_plate o p a l).1).2)
    = S (gate_opens p (emitted a)) ∧
  ¬ Exists (parked p)
      (table (store (api_confirm_exit env (Some p) (process_plate o p a l).1).2)).
Proof.
  intros Hp Hsel Hone Hex Hq Hreach Hok.
  destruct (process_plate_exit_branch o p a l Hsel Hex)
    as (Ht & Hhw & Hg & Hquote & _).
  destruct (Hquote d Hq) as [_ Hpend]. rewrite Hreach in Hpend.
  set (a1 := (process_plate o p a l).1) in *.
  split; [done |]. split; [apply Hg |]. split; [done |].
  split; [| split].
  - rewrite api_confirm_exit_pending by done. rewrite Hok.
    by rewrite bool_decide_eq_true_2.
  - rewrite api_confirm_exit_gate by done. rewrite Hok, String.eqb_refl, Hg. lia.
  - rewrite api_confirm_exit_store by done.
    destruct (confirm_payment_and_exit env p (store a1)) as [res st2] eqn:E.
    simpl in Hok. subst res.
    apply (confirm_leaves_no_parked env p (store a1) st2 E). by rewrite Ht.
Qed.

Lemma exit_handshake_witness :
  let o := mkOracle (λ _, "") (calm 1061000000) (calm 1061000000)
             (calm 1061000000) (λ _, true) (λ _, true) 1061000000 in
  let env := calm 1090000000 in
  let a := mkApp (mkStore [parked_row "MH12AB1234" 1000 "A1"] ∅ 0) None [] in
  let l := mkLoop (mkNesm (Some (mkArduino true true [])) 0) (Some "exit")
             ExitScanning None 0 in
  pending_exit_plate (process_plate o "MH12AB1234" a l).1 = Some "MH12AB1234" ∧
  gate_opens "MH12AB1234" (emitted (process_plate o "MH12AB1234" a l).1) =
    gate_opens "MH12AB1234" (emitted a) ∧
  hw (process_plate o "MH12AB1234" a l).2 = hw l ∧
  pending_exit_plate
    (api_confirm_exit env (Some "MH12AB1234")
       (process_plate o "MH12AB1234" a l).1).2 = None ∧
  gate_opens "MH12AB1234"
    (emitted (api_confirm_exit env (Some "MH12AB1234")
                (process_plate o "MH12AB1234" a l).1).2)
    = S (gate_opens "MH12AB1234" (emitted a)) ∧
  ¬ Exists (parked "MH12AB1234")
      (table (store (api_confirm_exit env (Some "MH12AB1234")
                       (process_plate o "MH12AB1234" a l).1).2)).
Proof.
  intros o env a l.
  apply (exit_handshake o env "MH12AB1234" a l
           (mkExitInfo "MH12AB1234" (Stamp 1000) (Stamp 1061) 2 2
              "IMAGES/upi_qr_MH12AB1234.png" "A1")).
  - discriminate.
  - reflexivity.
  - intros i j ri rj Hi Hj. destruct i, j; simpl in Hi, Hj; simplify_eq; done.
  - left. split; reflexivity.
  - vm_compute. reflexivity.
  - reflexivity.
  - vm_compute. reflexivity.
Defined.

(** The entry branch on a failed INSERT: no row is written, yet the gate
    block has run and the screen reports a logged entry. *)
Example entry_gate_opens_on_db_error :
  let o := mkOracle (λ _, "") (calm 1000000000)
             (mkEnv 1000000000 (λ _, Free)
                (λ s, match s with AtWrite => true | _ => false end))
             (calm 1003000000) (λ _, false) (λ _, true) 1003000000 in
  let a := mkApp fresh None [] in
  let l := mkLoop (mkNesm (Some (mkArduino true true [])) 0) (Some "entry")
             EntryScanning None 0 in
  (log_entry (o_op o) "MH12AB1234" (store a)).1 = Ret "db_error" ∧
  process_plate o "MH12AB1234" a l =
  (a, mkLoop (mkNesm (Some (mkArduino true true ["OPEN_ENTRY"; "CLOSE_ENTRY"]))
               3000)
        (Some "entry") (EntryLogged "MH12AB1234") None 0).
Proof. vm_compute. split; reflexivity. Qed.

End gate_hardware.
